(** * mdui components: tooltip positioning, tooltip trigger machine, switch validity

    A shallow embedding of
      - [src/app/mdui/components/tooltip/index.js]  (class [Tooltip])
      - [src/unnamed/part_002]                      (class [Switch])
    Every definition below carries the name of the method it embeds. *)

From Stdlib Require Import ZArith QArith String Ascii List Bool Lia.
From stdpp Require Import gmap strings list fin_maps.
Import ListNotations.
Local Open Scope string_scope.
Local Open Scope Z_scope.

(** ** JavaScript strings: [String.prototype.split] with a one-character
    separator, array destructuring, [===] against a string literal. *)
Module Js.

(** [s.split(sep)]: always at least one piece; an empty [s] gives [[""]]. *)
Fixpoint split (sep : ascii) (s : string) : list string :=
  match s with
  | EmptyString => [EmptyString]
  | String c rest =>
      if Ascii.eqb c sep then EmptyString :: split sep rest
      else match split sep rest with
           | [] => [String c EmptyString]
           | w :: ws => String c w :: ws
           end
  end.

(** [o === lit] where [o] may be [undefined] ([None]). *)
Definition is_tok (o : option string) (lit : string) : bool :=
  match o with
  | Some s => String.eqb s lit
  | None => false
  end.

(** [arr.includes(x)] on an array of strings. *)
Definition includes (arr : list string) (x : string) : bool :=
  existsb (String.eqb x) arr.

End Js.

(** ** The positioning pass: [Tooltip.updatePositioner] (index.js 321-458) *)
Module Geometry.

(** The arithmetic of JavaScript numbers the method uses: literals, [+],
    [-], [/] and [>].  The method is embedded over any such arithmetic, so
    that every equation proved below holds with the operations exactly as
    the source parenthesises them. *)
Class JsArith (num : Type) := {
  nlit : Z -> num;
  nadd : num -> num -> num;
  nsub : num -> num -> num;
  ndiv : num -> num -> num;
  ngt : num -> num -> bool
}.

Declare Scope js_scope.
Delimit Scope js_scope with js.
Infix "+" := nadd : js_scope.
Infix "-" := nsub : js_scope.
Infix "/" := ndiv : js_scope.
Infix ">?" := ngt : js_scope.

(** Exact rational arithmetic, used to run the method on concrete boxes.
    The numbers of the program are doubles, which round: what is stated
    about the method is stated for every instance, not for this one. *)
#[export] Instance Q_arith : JsArith Q := {
  nlit := inject_Z;
  nadd := Qplus;
  nsub := Qminus;
  ndiv := Qdiv;
  ngt := fun a b => match Qcompare a b with Gt => true | _ => false end
}.

(** [this.target.getBoundingClientRect()] *)
Record DOMRect (num : Type) := {
  rect_top : num;
  rect_left : num;
  rect_height : num;
  rect_width : num
}.
Arguments rect_top {num}.
Arguments rect_left {num}.
Arguments rect_height {num}.
Arguments rect_width {num}.

(** [this.popupRef.value.offsetHeight / offsetWidth] *)
Record PopupBox (num : Type) := {
  offsetHeight : num;
  offsetWidth : num
}.
Arguments offsetHeight {num}.
Arguments offsetWidth {num}.

(** [$(window).height() / width()] *)
Record Viewport (num : Type) := {
  win_height : num;
  win_width : num
}.
Arguments win_height {num}.
Arguments win_width {num}.

Record SpaceFlags := {
  hasTopSpace : bool;
  hasBottomSpace : bool;
  hasLeftSpace : bool;
  hasRightSpace : bool
}.

(** What one pass computes: the locals of the method and the object given
    to [$popup.css]. *)
Record Positioner (num : Type) := {
  placement_used : string;
  position : option string;
  alignment : option string;
  transformOriginX : string;
  transformOriginY : string;
  css_top : num;
  css_left : num;
  css_transformOrigin : string
}.
Arguments placement_used {num}.
Arguments position {num}.
Arguments alignment {num}.
Arguments transformOriginX {num}.
Arguments transformOriginY {num}.
Arguments css_top {num}.
Arguments css_left {num}.
Arguments css_transformOrigin {num}.

(** [isRich()] *)
Definition isRich (variant : string) : bool := String.eqb variant "rich".

Section Positioning.
Context {num : Type} `{JsArith num}.
Local Open Scope js_scope.

(** [const targetMargin = this.isRich() ? 0 : 4] *)
Definition targetMargin (variant : string) : num :=
  if isRich variant then nlit 0 else nlit 4.

(** [const popupMargin = 4] *)
Definition popupMargin : num := nlit 4.

Definition popupXSpace (variant : string) (popup : PopupBox num) : num :=
  offsetWidth popup + targetMargin variant + popupMargin.

Definition popupYSpace (variant : string) (popup : PopupBox num) : num :=
  offsetHeight popup + targetMargin variant + popupMargin.

(** Lines 345-348. *)
Definition spaceFlags (variant : string) (target : DOMRect num)
    (popup : PopupBox num) (win : Viewport num) : SpaceFlags :=
  {| hasTopSpace := rect_top target >? popupYSpace variant popup;
     hasBottomSpace :=
       win_height win - rect_top target - rect_height target
         >? popupYSpace variant popup;
     hasLeftSpace := rect_left target >? popupXSpace variant popup;
     hasRightSpace :=
       win_width win - rect_left target - rect_width target
         >? popupXSpace variant popup |}.

(** Lines 351-393: the [if / else if] chains; the assignment before each
    chain is what remains when no branch is taken. *)
Definition autoPlacement (rich : bool) (f : SpaceFlags) : string :=
  if rich then
    if hasBottomSpace f && hasRightSpace f then "bottom-right"
    else if hasBottomSpace f && hasLeftSpace f then "bottom-left"
    else if hasTopSpace f && hasRightSpace f then "top-right"
    else if hasTopSpace f && hasLeftSpace f then "top-left"
    else if hasBottomSpace f then "bottom"
    else if hasTopSpace f then "top"
    else if hasRightSpace f then "right"
    else if hasLeftSpace f then "left"
    else "bottom-right"
  else
    if hasTopSpace f then "top"
    else if hasBottomSpace f then "bottom"
    else if hasLeftSpace f then "left"
    else if hasRightSpace f then "right"
    else "top".

(** Lines 341-394: [let placement = this.placement; if (placement === 'auto') ...] *)
Definition resolvePlacement (variant placement : string)
    (target : DOMRect num) (popup : PopupBox num) (win : Viewport num)
    : string :=
  if String.eqb placement "auto"
  then autoPlacement (isRich variant) (spaceFlags variant target popup win)
  else placement.

(** Lines 397-420: the first [switch (position)]. *)
Definition verticalAxis (variant : string) (target : DOMRect num)
    (popup : PopupBox num) (pos ali : option string) : string * num :=
  if Js.is_tok pos "top" then
    ("bottom", rect_top target - offsetHeight popup - targetMargin variant)
  else if Js.is_tok pos "bottom" then
    ("top", rect_top target + rect_height target + targetMargin variant)
  else
    ("center",
     if Js.is_tok ali "start" then rect_top target
     else if Js.is_tok ali "end" then
       rect_top target + rect_height target - offsetHeight popup
     else
       rect_top target + rect_height target / nlit 2
         - offsetHeight popup / nlit 2).

(** Lines 421-452: the second [switch (position)]. *)
Definition horizontalAxis (variant : string) (target : DOMRect num)
    (popup : PopupBox num) (pos ali : option string) : string * num :=
  if Js.is_tok pos "left" then
    ("right", rect_left target - offsetWidth popup - targetMargin variant)
  else if Js.is_tok pos "right" then
    ("left", rect_left target + rect_width target + targetMargin variant)
  else
    if Js.is_tok ali "start" then ("center", rect_left target)
    else if Js.is_tok ali "end" then
      ("center", rect_left target + rect_width target - offsetWidth popup)
    else if Js.is_tok ali "left" then
      ("right", rect_left target - offsetWidth popup - targetMargin variant)
    else if Js.is_tok ali "right" then
      ("left", rect_left target + rect_width target + targetMargin variant)
    else
      ("center",
       rect_left target + rect_width target / nlit 2
         - offsetWidth popup / nlit 2).

Definition updatePositioner (variant placement : string)
    (target : DOMRect num) (popup : PopupBox num) (win : Viewport num)
    : Positioner num :=
  let placement := resolvePlacement variant placement target popup win in
  let parts := Js.split "-" placement in
  let pos := parts !! 0%nat in
  let ali := parts !! 1%nat in
  let v := verticalAxis variant target popup pos ali in
  let h := horizontalAxis variant target popup pos ali in
  {| placement_used := placement;
     position := pos;
     alignment := ali;
     transformOriginX := fst h;
     transformOriginY := fst v;
     css_top := snd v;
     css_left := snd h;
     css_transformOrigin := fst h ++ " " ++ fst v |}.

End Positioning.

(** The placements the component documents (index.js 65-81). *)
Definition concrete_placements : list string :=
  [ "top-left"; "top-start"; "top"; "top-end"; "top-right";
    "bottom-left"; "bottom-start"; "bottom"; "bottom-end"; "bottom-right";
    "left-start"; "left"; "left-end";
    "right-start"; "right"; "right-end" ].

End Geometry.

(** ** The trigger machine: the event handlers of [Tooltip]
    (index.js 228-317), the browser's timeouts and the hover controller. *)
Module Trigger.

(** The value of a [type: Number] property such as [openDelay]: a number
    of milliseconds, [NaN] (an attribute that is not a number) or [null]
    (the attribute removed). *)
Inductive delay_value :=
  | DNull
  | DNaN
  | DNum (ms : Z).

(** JavaScript truthiness of such a value: [0], [NaN] and [null] are falsy. *)
Definition truthy (d : delay_value) : bool :=
  match d with
  | DNum ms => negb (ms =? 0)
  | _ => false
  end.

(** [d || fallback] *)
Definition js_or (d : delay_value) (fallback : Z) : delay_value :=
  if truthy d then d else DNum fallback.

(** The conversion of a number to a signed 32-bit integer, as for the
    [long] argument of [window.setTimeout]: modulo 2^32 into
    [-2^31, 2^31). *)
Definition to_int32 (z : Z) : Z :=
  (z + 2147483648) mod 4294967296 - 2147483648.

(** The delay [window.setTimeout] waits for: the argument converted to a
    signed 32-bit integer, a negative result counting as 0; not a number
    counts as 0.  So a delay from 2^31 to 2^32 - 1 runs at once. *)
Definition timeout_ms (d : delay_value) : Z :=
  match d with
  | DNum ms => Z.max 0 (to_int32 ms)
  | _ => 0
  end.

(** The three closures the class hands to [window.setTimeout]. *)
Inductive timer_callback :=
  | CbSetOpen (b : bool)      (* [() => { this.open = b }] *)
  | CbRequestClose.           (* [() => { this.requestClose() }] *)

Record timer := {
  callback : timer_callback;
  delay : delay_value;        (* the second argument of [setTimeout] *)
  due : Z                     (* the earliest time at which it may run *)
}.

(** The timeouts of [window]: the pending ones by id, the next id, the clock. *)
Record Window := {
  timers : gmap nat timer;
  next_timer : nat;
  now : Z
}.

Definition setTimeout (cb : timer_callback) (d : delay_value) (w : Window)
    : nat * Window :=
  (next_timer w,
   {| timers :=
        <[next_timer w := {| callback := cb; delay := d;
                             due := now w + timeout_ms d |}]> (timers w);
      next_timer := S (next_timer w);
      now := now w |}).

(** [clearTimeout(undefined)] and clearing an id that is not pending do
    nothing. *)
Definition clearTimeout (id : option nat) (w : Window) : Window :=
  match id with
  | Some i => {| timers := delete i (timers w);
                 next_timer := next_timer w;
                 now := now w |}
  | None => w
  end.

(** The only listener the class registers on the hover controller is the
    closure of [requestClose] (lines 233-244). *)
Inductive leave_callback :=
  | LeaveThenClose.

Record leave_item := {
  item_callback : leave_callback;
  item_one : bool
}.

(** Modelled from the spec: the hover controller ([HoverController] of
    [@mdui/shared], not under src/).  It tracks whether the pointer sits
    over the popup surface ([isHover]) and keeps the listeners registered
    through [onMouseLeave(callback, one)]; when the pointer leaves the
    popup the flag is reset and every listener runs, a one-shot listener
    being dropped. *)
Record HoverController := {
  isHover : bool;
  mouseLeaveItems : list leave_item
}.

Record Tooltip := {
  openDelay : delay_value;
  closeDelay : delay_value;
  trigger : string;
  disabled : bool;
  open : bool;
  hoverTimeout : option nat;
  hoverController : HoverController;
  window : Window
}.

Definition set_open (b : bool) (s : Tooltip) : Tooltip :=
  {| openDelay := openDelay s; closeDelay := closeDelay s;
     trigger := trigger s; disabled := disabled s;
     open := b;
     hoverTimeout := hoverTimeout s;
     hoverController := hoverController s; window := window s |}.

Definition set_hoverTimeout (id : option nat) (s : Tooltip) : Tooltip :=
  {| openDelay := openDelay s; closeDelay := closeDelay s;
     trigger := trigger s; disabled := disabled s;
     open := open s;
     hoverTimeout := id;
     hoverController := hoverController s; window := window s |}.

Definition set_hoverController (h : HoverController) (s : Tooltip) : Tooltip :=
  {| openDelay := openDelay s; closeDelay := closeDelay s;
     trigger := trigger s; disabled := disabled s;
     open := open s;
     hoverTimeout := hoverTimeout s;
     hoverController := h; window := window s |}.

Definition set_window (w : Window) (s : Tooltip) : Tooltip :=
  {| openDelay := openDelay s; closeDelay := closeDelay s;
     trigger := trigger s; disabled := disabled s;
     open := open s;
     hoverTimeout := hoverTimeout s;
     hoverController := hoverController s; window := w |}.

(** [this.hoverTimeout = window.setTimeout(cb, d)] *)
Definition start_hoverTimeout (cb : timer_callback) (d : delay_value)
    (s : Tooltip) : Tooltip :=
  let r := setTimeout cb d (window s) in
  set_hoverTimeout (Some (fst r)) (set_window (snd r) s).

(** [window.clearTimeout(this.hoverTimeout)]: the field keeps the id. *)
Definition clear_hoverTimeout (s : Tooltip) : Tooltip :=
  set_window (clearTimeout (hoverTimeout s) (window s)) s.

(** [hasTrigger(trigger)] (lines 246-249) *)
Definition hasTrigger (s : Tooltip) (t : string) : bool :=
  Js.includes (Js.split " " (trigger s)) t.

(** [requestClose()] (lines 228-245) *)
Definition requestClose (s : Tooltip) : Tooltip :=
  if negb (isHover (hoverController s)) then set_open false s
  else
    set_hoverController
      {| isHover := isHover (hoverController s);
         mouseLeaveItems :=
           (mouseLeaveItems (hoverController s)
              ++ [{| item_callback := LeaveThenClose; item_one := true |}])%list |}
      s.

(** The listener [requestClose] registers (lines 233-244). *)
Definition run_leave_callback (cb : leave_callback) (s : Tooltip) : Tooltip :=
  match cb with
  | LeaveThenClose =>
      if hasTrigger s "hover"
      then start_hoverTimeout (CbSetOpen false) (js_or (closeDelay s) 50) s
      else set_open false s
  end.

(** [onFocus()] *)
Definition onFocus (s : Tooltip) : Tooltip :=
  if disabled s || open s || negb (hasTrigger s "focus") then s
  else set_open true s.

(** [onBlur()] *)
Definition onBlur (s : Tooltip) : Tooltip :=
  if disabled s || negb (open s) || negb (hasTrigger s "focus") then s
  else requestClose s.

(** [onClick(e)], [button] being [e.button] *)
Definition onClick (button : Z) (s : Tooltip) : Tooltip :=
  if disabled s || negb (button =? 0) || negb (hasTrigger s "click") then s
  else if open s && (hasTrigger s "hover" || hasTrigger s "focus") then s
  else set_open (negb (open s)) s.

(** [onKeydown(e)], [key] being [e.key]; the call of [e.stopPropagation()]
    leaves the component as it is. *)
Definition onKeydown (key : string) (s : Tooltip) : Tooltip :=
  if disabled s || negb (open s) || negb (String.eqb key "Escape") then s
  else requestClose s.

(** [onMouseEnter()] (lines 280-293) *)
Definition onMouseEnter (s : Tooltip) : Tooltip :=
  if disabled s || open s || negb (hasTrigger s "hover") then s
  else if truthy (openDelay s)
  then start_hoverTimeout (CbSetOpen true) (openDelay s) (clear_hoverTimeout s)
  else set_open true s.

(** [onMouseLeave()] (lines 294-304) *)
Definition onMouseLeave (s : Tooltip) : Tooltip :=
  let s1 := clear_hoverTimeout s in
  if disabled s1 || negb (open s1) || negb (hasTrigger s1 "hover") then s1
  else start_hoverTimeout CbRequestClose (js_or (closeDelay s1) 50) s1.

(** [onDocumentClick(e)] (lines 308-317), [inside] being
    [e.composedPath().includes(this)] *)
Definition onDocumentClick (inside : bool) (s : Tooltip) : Tooltip :=
  if disabled s || negb (open s) then s
  else if negb inside then requestClose s
  else s.

(** A pending timeout runs once, not before it is due. *)
Definition run_timer (cb : timer_callback) (s : Tooltip) : Tooltip :=
  match cb with
  | CbSetOpen b => set_open b s
  | CbRequestClose => requestClose s
  end.

Definition fire (id : nat) (s : Tooltip) : Tooltip :=
  match timers (window s) !! id with
  | Some t =>
      if due t <=? now (window s)
      then run_timer (callback t)
             (set_window (clearTimeout (Some id) (window s)) s)
      else s
  | None => s
  end.

(** The pointer enters and leaves the popup surface. *)
Definition popupMouseEnter (s : Tooltip) : Tooltip :=
  set_hoverController
    {| isHover := true;
       mouseLeaveItems := mouseLeaveItems (hoverController s) |} s.

Definition popupMouseLeave (s : Tooltip) : Tooltip :=
  let items := mouseLeaveItems (hoverController s) in
  let s1 :=
    set_hoverController
      {| isHover := false;
         mouseLeaveItems := List.filter (fun it => negb (item_one it)) items |}
      s in
  fold_left (fun st it => run_leave_callback (item_callback it) st) items s1.

(** Time passes. *)
Definition advance (dt : Z) (s : Tooltip) : Tooltip :=
  set_window
    {| timers := timers (window s);
       next_timer := next_timer (window s);
       now := now (window s) + Z.max 0 dt |} s.

(** What can happen to one tooltip. *)
Inductive event :=
  | Focus
  | Blur
  | PointerDownTarget (button : Z)
  | Keydown (key : string)
  | MouseEnter
  | MouseLeave
  | DocumentPointerDown (inside : bool)
  | PopupMouseEnter
  | PopupMouseLeave
  | TimerFire (id : nat)
  | Advance (dt : Z)
  | SetOpenProp (b : bool).     (* [tooltip.open = b] from outside *)

Definition handle (e : event) (s : Tooltip) : Tooltip :=
  match e with
  | Focus => onFocus s
  | Blur => onBlur s
  | PointerDownTarget button => onClick button s
  | Keydown key => onKeydown key s
  | MouseEnter => onMouseEnter s
  | MouseLeave => onMouseLeave s
  | DocumentPointerDown inside => onDocumentClick inside s
  | PopupMouseEnter => popupMouseEnter s
  | PopupMouseLeave => popupMouseLeave s
  | TimerFire id => fire id s
  | Advance dt => advance dt s
  | SetOpenProp b => set_open b s
  end.

Definition run (es : list event) (s : Tooltip) : Tooltip :=
  fold_left (fun st e => handle e st) es s.

(** The time a list of events lets pass. *)
Definition elapsed (es : list event) : Z :=
  fold_right (fun e acc => match e with
                           | Advance dt => Z.max 0 dt + acc
                           | _ => acc
                           end) 0 es.

(** The constructor (lines 53-123). *)
Definition initial : Tooltip :=
  {| openDelay := DNum 150; closeDelay := DNum 150;
     trigger := "hover focus"; disabled := false; open := false;
     hoverTimeout := None;
     hoverController := {| isHover := false; mouseLeaveItems := [] |};
     window := {| timers := ∅; next_timer := 1; now := 0 |} |}.

Definition with_trigger (t : string) (s : Tooltip) : Tooltip :=
  {| openDelay := openDelay s; closeDelay := closeDelay s;
     trigger := t; disabled := disabled s; open := open s;
     hoverTimeout := hoverTimeout s;
     hoverController := hoverController s; window := window s |}.


End Trigger.

(** ** The watcher of [open]: [Tooltip.onOpenChange] (index.js 137-181),
    run over the tooltips of one document. *)
Module OpenChange.

(** One [<mdui-tooltip>] of the document, as the watcher sees it. *)
Record Element := {
  variant : string;
  open : bool;
  hasUpdated : bool;
  popupHidden : bool;         (* [this.popupRef.value.hidden] *)
  hasTarget : bool            (* [this.target] finds a child *)
}.

Definition set_open (b : bool) (e : Element) : Element :=
  {| variant := variant e; open := b;
     hasUpdated := hasUpdated e; popupHidden := popupHidden e;
     hasTarget := hasTarget e |}.

Definition set_popupHidden (b : bool) (e : Element) : Element :=
  {| variant := variant e; open := open e;
     hasUpdated := hasUpdated e; popupHidden := b;
     hasTarget := hasTarget e |}.

(** What the watcher does, in the order in which it does it. *)
Inductive effect :=
  | SetOpenProp (j : nat) (b : bool)          (* [.prop('open', b)] on tooltip [j] *)
  | Emit (i : nat) (name : string) (cancelable : bool)
  | StopAnimations (i : nat)
  | SetHidden (i : nat) (b : bool)
  | UpdatePositioner (i : nat)
  | Throw (i : nat)        (* the call throws and the watcher ends there *)
  | AnimateTo (i : nat) (scale_from scale_to : Z) (timed : bool).

(** [$(`mdui-tooltip[variant="${v}"]`).filter((_, element) => element !== this)]:
    the positions of the other tooltips whose variant is [v].  The
    selector asks for the attribute value [v] itself when [v] has no
    double quote, backslash, line break or null character
    ([OpenChangeRules.css_literal]); the statements that depend on which
    tooltips are selected are made for such variants. *)
Definition others (i : nat) (v : string) (doc : list Element) : list nat :=
  List.filter (fun j => negb (Nat.eqb j i) &&
                        match doc !! j with
                        | Some e => String.eqb (variant e) v
                        | None => false
                        end)
              (seq 0 (length doc)).

(** [.prop('open', false)] on each of them. *)
Definition closeOthers (i : nat) (v : string) (doc : list Element)
    : list Element :=
  fold_left (fun d j => alter (set_open false) j d) (others i v doc) doc.

Section Watcher.
(** [proceeds i name]: whether [emit(name, { cancelable: true })] on
    tooltip [i] returns true, that is, no listener prevented the default. *)
Variable proceeds : nat -> string -> bool.

(** [updatePositioner] reads [this.target.getBoundingClientRect()] (line
    326): when the tooltip has no child that [target] accepts, the call of
    line 160 throws, after the popup has been shown, and neither the
    animation nor [opened] is reached. *)
Definition onOpenChange (i : nat) (doc : list Element)
    : list Element * list effect :=
  match doc !! i with
  | None => (doc, [])
  | Some me =>
      if open me then
        let closes := map (fun j => SetOpenProp j false)
                          (others i (variant me) doc) in
        let doc1 := closeOthers i (variant me) doc in
        if hasUpdated me && negb (proceeds i "open")
        then (doc1, (closes ++ [Emit i "open" true])%list)
        else
          (alter (set_popupHidden false) i doc1,
           (closes
              ++ (if hasUpdated me then [Emit i "open" true] else [])
              ++ [StopAnimations i; SetHidden i false; UpdatePositioner i]
              ++ (if hasTarget me
                  then AnimateTo i 0 1 (hasUpdated me)
                         :: (if hasUpdated me then [Emit i "opened" false]
                             else [])
                  else [Throw i]))%list)
      else if hasUpdated me then
        if negb (proceeds i "close")
        then (doc, [Emit i "close" true])
        else
          (alter (set_popupHidden true) i doc,
           [Emit i "close" true; StopAnimations i; AnimateTo i 1 0 true;
            SetHidden i true; Emit i "closed" false])
      else (doc, [])
  end.

End Watcher.

Definition is_SetOpenProp (e : effect) : bool :=
  match e with
  | SetOpenProp _ _ => true
  | _ => false
  end.

End OpenChange.

(** ** The switch: [Switch.checkValidity] and [Switch.reportValidity]
    (part_002 128-159) *)
Module Switch.

(** The [<input type="checkbox">] behind [inputRef]. *)
Record Input := {
  input_checked : bool;
  input_disabled : bool;
  input_required : bool;
  input_customValidity : string
}.

Record Switch := {
  disabled : bool;
  checked : bool;
  defaultChecked : bool;
  required : bool;
  name : string;
  value : string;
  invalid : bool;
  inputRef : Input
}.

Definition set_invalid (b : bool) (s : Switch) : Switch :=
  {| disabled := disabled s; checked := checked s;
     defaultChecked := defaultChecked s; required := required s;
     name := name s; value := value s;
     invalid := b; inputRef := inputRef s |}.

(** What a method does to the outside: the events it emits on the
    component and the focus calls. *)
Inductive effect :=
  | Emit (name : string) (bubbles cancelable composed : bool)
  | CallBlur
  | CallFocus.

Definition invalid_event : effect := Emit "invalid" false true false.

(** The constraint validation of a checkbox by the browser: an input barred
    from validation (disabled) is valid; otherwise it is valid when it is
    neither required and unchecked nor carries a custom error. *)
Definition html_checkbox_valid (i : Input) : bool :=
  input_disabled i
  || negb ((input_required i && negb (input_checked i))
           || negb (String.eqb (input_customValidity i) "")).

Section Validity.
(** The answer of the native [checkValidity()] / [reportValidity()] of the
    input, and whether [emit] returns true (no listener prevented the
    default). *)
Variable nativeValid : Input -> bool.
Variable proceeds : string -> bool.

(** [checkValidity()] *)
Definition checkValidity (s : Switch) : bool * list effect * Switch :=
  let valid := nativeValid (inputRef s) in
  (valid, if negb valid then [invalid_event] else [], s).

(** [reportValidity()] *)
Definition reportValidity (s : Switch) : bool * list effect * Switch :=
  let s1 := set_invalid (negb (nativeValid (inputRef s))) s in
  let effects :=
    if invalid s1 then
      invalid_event
        :: (if negb (proceeds "invalid") then [CallBlur; CallFocus] else [])
    else [] in
  (negb (invalid s1), effects, s1).

End Validity.

End Switch.

(** ** The rules of the specification, stated over what one pass computes *)
Module PlacementRules.
Import Geometry.

Section Rules.
Context {num : Type} `{JsArith num}.
Local Open Scope js_scope.

(** The rule of one axis, in the words the specification uses for the
    vertical one: the position [near] puts the popup before the target and
    the origin at [origin_near], the position [far] puts it after the
    target and the origin at [origin_far]; otherwise the origin is the
    center and the alignment chooses the coordinate. *)
Definition axis_rule (near far origin_near origin_far : string)
    (tStart tSize pSize margin : num)
    (pos ali : option string) (origin : string) (coord : num) : Prop :=
  (pos = Some near ->
     origin = origin_near /\ coord = tStart - pSize - margin) /\
  (pos = Some far ->
     origin = origin_far /\ coord = tStart + tSize + margin) /\
  (pos <> Some near -> pos <> Some far ->
     origin = "center" /\
     (ali = Some "start" -> coord = tStart) /\
     (ali = Some "end" -> coord = tStart + tSize - pSize) /\
     (ali = None -> coord = tStart + tSize / nlit 2 - pSize / nlit 2)).

Definition vertical_rule (variant : string) (target : DOMRect num)
    (popup : PopupBox num) (r : Positioner num) : Prop :=
  axis_rule "top" "bottom" "bottom" "top"
    (rect_top target) (rect_height target) (offsetHeight popup)
    (targetMargin variant)
    (position r) (alignment r) (transformOriginY r) (css_top r).

(** The same rule with left and right for top and bottom. *)
Definition horizontal_rule_symmetric (variant : string) (target : DOMRect num)
    (popup : PopupBox num) (r : Positioner num) : Prop :=
  axis_rule "left" "right" "right" "left"
    (rect_left target) (rect_width target) (offsetWidth popup)
    (targetMargin variant)
    (position r) (alignment r) (transformOriginX r) (css_left r).

(** The horizontal rule of the method: under a position that is neither
    [left] nor [right], the alignments [left] and [right] of the corner
    placements act as the positions [left] and [right] do. *)
Definition horizontal_rule (variant : string) (target : DOMRect num)
    (popup : PopupBox num) (r : Positioner num) : Prop :=
  let tStart := rect_left target in
  let tSize := rect_width target in
  let pSize := offsetWidth popup in
  let margin := targetMargin variant in
  let before := transformOriginX r = "right" /\
                css_left r = tStart - pSize - margin in
  let after := transformOriginX r = "left" /\
               css_left r = tStart + tSize + margin in
  (position r = Some "left" -> before) /\
  (position r = Some "right" -> after) /\
  (position r <> Some "left" -> position r <> Some "right" ->
     (alignment r = Some "left" -> before) /\
     (alignment r = Some "right" -> after) /\
     (alignment r <> Some "left" -> alignment r <> Some "right" ->
        transformOriginX r = "center" /\
        (alignment r = Some "start" -> css_left r = tStart) /\
        (alignment r = Some "end" -> css_left r = tStart + tSize - pSize) /\
        (alignment r = None ->
           css_left r = tStart + tSize / nlit 2 - pSize / nlit 2))).

End Rules.

(** "First flag-combination satisfied wins": the first entry of a priority
    list whose condition holds, or the fallback. *)
Fixpoint first_match (priority : list (string * bool)) (fallback : string)
    : string :=
  match priority with
  | [] => fallback
  | (p, cond) :: rest => if cond then p else first_match rest fallback
  end.

Definition rich_priority (f : SpaceFlags) : list (string * bool) :=
  [ ("bottom-right", hasBottomSpace f && hasRightSpace f);
    ("bottom-left", hasBottomSpace f && hasLeftSpace f);
    ("top-right", hasTopSpace f && hasRightSpace f);
    ("top-left", hasTopSpace f && hasLeftSpace f);
    ("bottom", hasBottomSpace f);
    ("top", hasTopSpace f);
    ("right", hasRightSpace f);
    ("left", hasLeftSpace f) ].

Definition plain_priority (f : SpaceFlags) : list (string * bool) :=
  [ ("top", hasTopSpace f);
    ("bottom", hasBottomSpace f);
    ("left", hasLeftSpace f);
    ("right", hasRightSpace f) ].

(** Boxes to run the method on: a 80x40 target, a 200x100 popup, a
    1000x800 viewport. *)
Definition target_at (top left : Z) : DOMRect Q :=
  {| rect_top := inject_Z top; rect_left := inject_Z left;
     rect_height := inject_Z 40; rect_width := inject_Z 80 |}.

Definition popup_200x100 : PopupBox Q :=
  {| offsetHeight := inject_Z 100; offsetWidth := inject_Z 200 |}.

Definition viewport_1000x800 : Viewport Q :=
  {| win_height := inject_Z 800; win_width := inject_Z 1000 |}.

End PlacementRules.

(** ** Statements about the trigger machine *)
Module TriggerRules.
Import Trigger.

(** Ids are handed out in increasing order: the pending timeouts and the
    id kept in [hoverTimeout] are older than the next id. *)
Definition ids_fresh (s : Tooltip) : Prop :=
  (forall id, is_Some (timers (window s) !! id) ->
              (id < next_timer (window s))%nat) /\
  (forall id, hoverTimeout s = Some id -> (id < next_timer (window s))%nat).

(** Every pending timeout is the one whose id [hoverTimeout] keeps. *)
Definition slot_owns (s : Tooltip) : Prop :=
  forall id, is_Some (timers (window s) !! id) -> hoverTimeout s = Some id.

(** From [s] to [s'] no timeout was started and the slot keeps its id. *)
Definition keeps_timers (s s' : Tooltip) : Prop :=
  hoverTimeout s' = hoverTimeout s /\
  next_timer (window s') = next_timer (window s) /\
  forall id, is_Some (timers (window s') !! id) ->
             is_Some (timers (window s) !! id).

(** The reading of the specification: the open delay has a timer slot of
    its own, so a mouseenter leaves every pending timeout that is not an
    open delay as it is. *)
Definition mouseenter_keeps_close_timers (s : Tooltip) : Prop :=
  forall id t,
    timers (window s) !! id = Some t ->
    callback t <> CbSetOpen true ->
    timers (window (handle MouseEnter s)) !! id = Some t.

(** The reading of the specification: an outside pointer-down closes an
    open, enabled tooltip at once. *)
Definition outside_pointer_down_closes (s : Tooltip) : Prop :=
  open s = true -> disabled s = false ->
  open (handle (DocumentPointerDown false) s) = false.

(** Events that ask for the tooltip to open when the trigger is [hover]
    alone: a new mouseenter, and [open] set to true from outside. *)
Definition requests_open (e : event) : bool :=
  match e with
  | MouseEnter => true
  | SetOpenProp b => b
  | _ => false
  end.




(** The default tooltip, opened by hover, the pointer then leaving the
    target and a pointer-down outside closing it: the close delay started
    by the mouseleave is still pending. *)
Definition closed_with_pending_close : Tooltip :=
  run [MouseEnter; Advance 150; TimerFire 1; MouseLeave;
       DocumentPointerDown false] initial.

(** The reading of the specification: from any closed tooltip triggered
    by hover alone, a mouseenter followed by a mouseleave before the open
    delay has elapsed never opens it. *)
Definition leave_before_open_delay_keeps_closed (s : Tooltip) (d : Z)
    (mid post : list event) : Prop :=
  trigger s = "hover" -> openDelay s = DNum d -> 0 < d ->
  open s = false ->
  Forall (fun e => requests_open e = false) mid ->
  elapsed mid < d ->
  Forall (fun e => requests_open e = false) post ->
  open (run (MouseEnter :: (mid ++ MouseLeave :: post)%list) s) = false.

(** The default tooltip with the trigger [hover], closed again, with an
    open delay left pending that [hoverTimeout] no longer keeps.  The
    tooltip is opened by hover; [Escape] is pressed twice while the
    pointer is on the popup, the pointer leaving the popup in between;
    the close delay (timeout 3) closes it; the pointer enters the target
    (open delay, timeout 4), leaves the popup (the waiting listener puts
    timeout 5 in [hoverTimeout]) and leaves the target (which cancels
    timeout 5). *)
Definition closed_with_stray_open_delay : Tooltip :=
  run [MouseEnter; Advance 150; TimerFire 1; MouseLeave;
       PopupMouseEnter; Keydown "Escape"; PopupMouseLeave;
       PopupMouseEnter; Keydown "Escape"; Advance 150; TimerFire 3;
       MouseEnter; PopupMouseLeave; MouseLeave]
      (with_trigger "hover" initial).




(** The default tooltip, opened by hover, the pointer resting on the popup. *)
Definition open_and_hovered : Tooltip :=
  run [MouseEnter; Advance 150; TimerFire 1; PopupMouseEnter] initial.


End TriggerRules.

(** ** Statements about the watcher *)
Module OpenChangeRules.
Import OpenChange.

(** What the watcher of an open tooltip does after the closing of the
    others (index.js 149-168). *)
Definition own_effects (proceeds : nat -> string -> bool) (i : nat)
    (me : Element) : list effect :=
  if hasUpdated me && negb (proceeds i "open") then [Emit i "open" true]
  else
    ((if hasUpdated me then [Emit i "open" true] else [])
       ++ [StopAnimations i; SetHidden i false; UpdatePositioner i]
       ++ (if hasTarget me
           then AnimateTo i 0 1 (hasUpdated me)
                  :: (if hasUpdated me then [Emit i "opened" false] else [])
           else [Throw i]))%list.

(** The variants the selector of line 146 reads as they are: inside the
    quoted string of the selector a backslash starts an escape, a double
    quote ends the string, a line break makes it invalid and a null
    character is replaced. *)
Fixpoint css_literal (v : string) : bool :=
  match v with
  | EmptyString => true
  | String c rest =>
      let n := nat_of_ascii c in
      negb ((n =? 0)%nat || (n =? 10)%nat || (n =? 12)%nat || (n =? 13)%nat
            || (n =? 34)%nat || (n =? 92)%nat)
      && css_literal rest
  end.

(** The reading of the specification: whatever the listeners of another
    tooltip of the variant answer to its [close] event, after tooltip [i]
    has opened and the watcher of tooltip [j] has run, tooltip [j] is
    closed: its [open] is false and its popup is hidden. *)
Definition forced_close_cannot_be_refused
    (proceeds answers : nat -> string -> bool) (i j : nat)
    (doc : list Element) : Prop :=
  exists e',
    fst (onOpenChange answers j (fst (onOpenChange proceeds i doc))) !! j
    = Some e' /\
    open e' = false /\ popupHidden e' = true.

Definition shown (v : string) : Element :=
  {| variant := v; open := true; hasUpdated := true; popupHidden := false;
     hasTarget := true |}.

Definition just_opened (v : string) : Element :=
  {| variant := v; open := true; hasUpdated := true; popupHidden := true;
     hasTarget := true |}.

Definition just_closed (v : string) : Element :=
  {| variant := v; open := false; hasUpdated := true; popupHidden := false;
     hasTarget := true |}.

(** A plain tooltip shown, a second plain tooltip whose [open] has just
    become true, a rich tooltip shown. *)
Definition three_tooltips : list Element :=
  [shown "plain"; just_opened "plain"; shown "rich"].

Definition allow_all (i : nat) (name : string) : bool := true.

Definition prevent_all (i : nat) (name : string) : bool := false.

End OpenChangeRules.

(** ** Inputs to run the switch on *)
Module SwitchRules.
Import Switch.

(** A required switch that is not checked and not yet marked invalid. *)
Definition required_unchecked : Switch :=
  {| disabled := false; checked := false; defaultChecked := false;
     required := true; name := ""; value := "on"; invalid := false;
     inputRef := {| input_checked := false; input_disabled := false;
                    input_required := true; input_customValidity := "" |} |}.

Definition allow (name : string) : bool := true.

End SwitchRules.

(** ** The target of the tooltip: the getter [Tooltip.target]
    (index.js 127-130) *)
Module Dom.

(** A child element of the tooltip, as the getter reads it: its
    [tagName] and [getAttribute('slot')] ([None] when the attribute is
    absent). *)
Record Child := {
  tagName : string;
  slot : option string
}.

(** [String.prototype.toLowerCase] on the ASCII letters, which tag names
    are made of. *)
Definition lower_ascii (c : ascii) : ascii :=
  let n := nat_of_ascii c in
  if (65 <=? n)%nat && (n <=? 90)%nat then ascii_of_nat (n + 32) else c.

Fixpoint toLowerCase (s : string) : string :=
  match s with
  | EmptyString => EmptyString
  | String c rest => String (lower_ascii c) (toLowerCase rest)
  end.

(** The callback of [find]. *)
Definition eligible (el : Child) : bool :=
  negb (String.eqb (toLowerCase (tagName el)) "style")
  && negb (Js.is_tok (slot el) "content").

(** [[...this.children].find(...)]: [undefined] ([None]) when no child
    passes. *)
Definition target (children : list Child) : option Child :=
  List.find eligible children.

End Dom.

(** ** The listeners of a tooltip outside its target:
    [Tooltip.connectedCallback] and [Tooltip.disconnectedCallback]
    (index.js 182-203) *)
Module Lifecycle.

(** The listeners the two callbacks manage: the [pointerdown] listener
    [onDocumentClick] on the document, the [scroll] listener
    [onWindowScroll] on elements (named by numbers), and the field
    [overflowAncestors].  Both listeners are the functions bound once in
    the constructor, so adding one twice to the same element leaves one
    listener. *)
Record Listeners := {
  document_pointerdown : bool;
  scroll : gset nat;
  overflowAncestors : option (list nat)
}.

(** [connectedCallback()], [ancestors] being what
    [getOverflowAncestors(this.target)] returns.  The resize observer it
    asks for once the element is defined is left out. *)
Definition connectedCallback (ancestors : list nat) (l : Listeners)
    : Listeners :=
  {| document_pointerdown := true;
     scroll := scroll l ∪ list_to_set ancestors;
     overflowAncestors := Some ancestors |}.

(** [disconnectedCallback()]: [this.overflowAncestors?.forEach(...)]. *)
Definition disconnectedCallback (l : Listeners) : Listeners :=
  {| document_pointerdown := false;
     scroll := match overflowAncestors l with
               | Some ancestors => scroll l ∖ list_to_set ancestors
               | None => scroll l
               end;
     overflowAncestors := overflowAncestors l |}.

(** The element is attached with the given ancestors and detached again,
    once for each entry of the list. *)
Definition attach_detach (moves : list (list nat)) (l : Listeners)
    : Listeners :=
  fold_left (fun st ancestors =>
               disconnectedCallback (connectedCallback ancestors st))
            moves l.

(** A tooltip that has never been attached. *)
Definition detached : Listeners :=
  {| document_pointerdown := false; scroll := ∅; overflowAncestors := None |}.

End Lifecycle.

(** ** The watchers of the switch: [Switch.onDisabledChange],
    [Switch.onCheckedChange], [Switch.setCustomValidity]
    (part_002 109-124, 165-168) *)
Module SwitchForm.
Import Switch.

Definition set_inputRef (i : Input) (s : Switch) : Switch :=
  {| disabled := disabled s; checked := checked s;
     defaultChecked := defaultChecked s; required := required s;
     name := name s; value := value s;
     invalid := invalid s; inputRef := i |}.

(** [await this.updateComplete]: the template of [render] has bound
    [.disabled], [.checked] and [.required] of the input to the fields of
    the component (part_002 173). *)
Definition rendered (s : Switch) : Switch :=
  set_inputRef
    {| input_checked := checked s;
       input_disabled := disabled s;
       input_required := required s;
       input_customValidity := input_customValidity (inputRef s) |} s.

Section Watchers.
Variable nativeValid : Input -> bool.

(** [this.invalid = !this.inputRef.value.checkValidity()] *)
Definition validate (s : Switch) : Switch :=
  set_invalid (negb (nativeValid (inputRef s))) s.

(** [onDisabledChange()], the watcher of [disabled] and [required] *)
Definition onDisabledChange (s : Switch) : Switch :=
  validate (rendered s).

(** [onCheckedChange()].  [self] is the switch, [form] what
    [formController.getForm()] returns, [formResets] the controls each
    form is resetting. *)
Definition onCheckedChange (self : nat) (form : option nat)
    (formResets : gmap nat (gset nat)) (s : Switch)
    : gmap nat (gset nat) * Switch :=
  let s1 := rendered s in
  match form with
  | Some f =>
      match formResets !! f with
      | Some controls =>
          if bool_decide (self ∈ controls)
          then (<[f := controls ∖ {[self]}]> formResets, set_invalid false s1)
          else (formResets, validate s1)
      | None => (formResets, validate s1)
      end
  | None => (formResets, validate s1)
  end.

(** [setCustomValidity(message)] *)
Definition setCustomValidity (message : string) (s : Switch) : Switch :=
  validate
    (set_inputRef
       {| input_checked := input_checked (inputRef s);
          input_disabled := input_disabled (inputRef s);
          input_required := input_required (inputRef s);
          input_customValidity := message |} s).

End Watchers.

End SwitchForm.

(** ** Further statements about the positioning pass, the trigger machine
    and the watcher *)
Module MoreRules.

(** The flag of the side a token of a placement names; a token that names
    no side asks for no room. *)
Definition side_has_room (f : Geometry.SpaceFlags) (tok : option string)
    : bool :=
  if Js.is_tok tok "top" then Geometry.hasTopSpace f
  else if Js.is_tok tok "bottom" then Geometry.hasBottomSpace f
  else if Js.is_tok tok "left" then Geometry.hasLeftSpace f
  else if Js.is_tok tok "right" then Geometry.hasRightSpace f
  else true.

Definition some_room (f : Geometry.SpaceFlags) : bool :=
  Geometry.hasTopSpace f || Geometry.hasBottomSpace f
  || Geometry.hasLeftSpace f || Geometry.hasRightSpace f.

(** A character that is not the separator, a piece without separator,
    and [arr.join(sep)]. *)
Fixpoint free_of (sep : ascii) (s : string) : bool :=
  match s with
  | EmptyString => true
  | String c rest => negb (Ascii.eqb c sep) && free_of sep rest
  end.

Definition join (sep : ascii) (pieces : list string) : string :=
  String.concat (String sep EmptyString) pieces.

(** Every listener on the hover controller is one-shot. *)
Definition one_shot_items (s : Trigger.Tooltip) : Prop :=
  Forall (fun it => Trigger.item_one it = true)
         (Trigger.mouseLeaveItems (Trigger.hoverController s)).

(** ... and the timeout ids are fresh. *)
Definition wellformed (s : Trigger.Tooltip) : Prop :=
  TriggerRules.ids_fresh s /\ one_shot_items s.

(** The trigger names none of [hover], [focus], [click]. *)
Definition no_auto_trigger (s : Trigger.Tooltip) : Prop :=
  Trigger.hasTrigger s "hover" = false /\
  Trigger.hasTrigger s "focus" = false /\
  Trigger.hasTrigger s "click" = false.

(** No pending timeout is an open delay. *)
Definition no_open_delay_pending (s : Trigger.Tooltip) : Prop :=
  forall id t,
    Trigger.timers (Trigger.window s) !! id = Some t ->
    Trigger.callback t <> Trigger.CbSetOpen true.

(** [open] set to true from outside. *)
Definition sets_open (e : Trigger.event) : bool :=
  match e with
  | Trigger.SetOpenProp b => b
  | _ => false
  end.

(** The events of the target and of the document. *)
Definition input_event (e : Trigger.event) : bool :=
  match e with
  | Trigger.Focus | Trigger.Blur | Trigger.PointerDownTarget _
  | Trigger.Keydown _ | Trigger.MouseEnter | Trigger.MouseLeave
  | Trigger.DocumentPointerDown _ => true
  | _ => false
  end.

(** [tooltip.open = true] on tooltip [i] of the document, before its
    watcher runs. *)
Definition open_tooltip (i : nat) (doc : list OpenChange.Element)
    : list OpenChange.Element :=
  alter (OpenChange.set_open true) i doc.

(** At most one tooltip of each variant is open. *)
Definition exclusive (doc : list OpenChange.Element) : Prop :=
  forall j k ej ek,
    doc !! j = Some ej -> doc !! k = Some ek ->
    OpenChange.open ej = true -> OpenChange.open ek = true ->
    OpenChange.variant ej = OpenChange.variant ek -> j = k.

(** A plain tooltip shown, a plain tooltip closed, a rich tooltip shown. *)
Definition one_open_per_variant : list OpenChange.Element :=
  [OpenChangeRules.shown "plain"; OpenChangeRules.just_closed "plain";
   OpenChangeRules.shown "rich"].

(** A tooltip that is open before its first render. *)
Definition open_at_first_render : list OpenChange.Element :=
  [OpenChangeRules.shown "plain";
   {| OpenChange.variant := "plain"; OpenChange.open := true;
      OpenChange.hasUpdated := false; OpenChange.popupHidden := true;
      OpenChange.hasTarget := true |}].

(** The same, the second tooltip having only its slotted content as a
    child. *)
Definition open_without_target : list OpenChange.Element :=
  [OpenChangeRules.shown "plain";
   {| OpenChange.variant := "plain"; OpenChange.open := true;
      OpenChange.hasUpdated := false; OpenChange.popupHidden := true;
      OpenChange.hasTarget := false |}].

(** The children of a tooltip: a style sheet, the slotted content, a
    button, a link. *)
Definition some_children : list Dom.Child :=
  [ {| Dom.tagName := "STYLE"; Dom.slot := None |};
    {| Dom.tagName := "DIV"; Dom.slot := Some "content" |};
    {| Dom.tagName := "MDUI-BUTTON"; Dom.slot := None |};
    {| Dom.tagName := "A"; Dom.slot := None |} ].

Definition is_Emit (e : OpenChange.effect) : bool :=
  match e with
  | OpenChange.Emit _ _ _ => true
  | _ => false
  end.


(** The same tooltip with the trigger [manual], opened from outside. *)
Definition manual_closed : Trigger.Tooltip :=
  Trigger.with_trigger "manual" Trigger.initial.

(** A disabled tooltip that is open, with every trigger. *)
Definition disabled_open : Trigger.Tooltip :=
  {| Trigger.openDelay := Trigger.DNum 0;
     Trigger.closeDelay := Trigger.DNum 0;
     Trigger.trigger := "click hover focus";
     Trigger.disabled := true;
     Trigger.open := true;
     Trigger.hoverTimeout := None;
     Trigger.hoverController :=
       {| Trigger.isHover := false; Trigger.mouseLeaveItems := [] |};
     Trigger.window :=
       {| Trigger.timers := ∅; Trigger.next_timer := 1; Trigger.now := 0 |} |}.

(** The default tooltip, opened by hover, the pointer on the popup, after
    an outside pointer-down and an [Escape] keydown. *)
Definition two_close_requests : Trigger.Tooltip :=
  Trigger.run
    [Trigger.MouseEnter; Trigger.Advance 150; Trigger.TimerFire 1;
     Trigger.PopupMouseEnter; Trigger.DocumentPointerDown false;
     Trigger.Keydown "Escape"]
    Trigger.initial.

(** A tooltip triggered by click alone. *)
Definition click_only : Trigger.Tooltip :=
  Trigger.with_trigger "click" Trigger.initial.

End MoreRules.

(** * Facts *)

Module JsFacts.
Import Js.

Lemma is_tok_true o lit : is_tok o lit = true <-> o = Some lit.
Proof.
  destruct o as [s|]; simpl; [|split; discriminate].
  rewrite String.eqb_eq. split; congruence.
Qed.

Lemma is_tok_false o lit : is_tok o lit = false <-> o <> Some lit.
Proof.
  rewrite <- is_tok_true. destruct (is_tok o lit); split; congruence.
Qed.

Lemma split_nonempty sep s : split sep s <> [].
Proof.
  destruct s as [|c rest]; simpl; [discriminate|].
  destruct (Ascii.eqb c sep); [discriminate|].
  destruct (split sep rest); discriminate.
Qed.

Lemma includes_true arr x : includes arr x = true <-> In x arr.
Proof.
  unfold includes. rewrite existsb_exists. split.
  - intros (y & Hy & E). apply String.eqb_eq in E. now subst.
  - intros Hx. exists x. split; [assumption | apply String.eqb_refl].
Qed.

End JsFacts.

Module GeometryFacts.
Import Geometry PlacementRules.

(** Case analysis on every [===] test of a goal. *)
Ltac tok_cases :=
  repeat match goal with
         | |- context [Js.is_tok ?o ?l] =>
             let E := fresh "E" in
             destruct (Js.is_tok o l) eqn:E;
             [apply JsFacts.is_tok_true in E | apply JsFacts.is_tok_false in E]
         end.

Section Concrete.
Context {num : Type} `{JsArith num}.
Local Open Scope js_scope.

Lemma resolvePlacement_concrete variant placement
    (target : DOMRect num) popup win :
  placement <> "auto" ->
  resolvePlacement variant placement target popup win = placement.
Proof.
  intros Hp. unfold resolvePlacement.
  destruct (String.eqb_spec placement "auto"); [contradiction | reflexivity].
Qed.

Lemma verticalAxis_rule variant (target : DOMRect num) popup pos ali :
  axis_rule "top" "bottom" "bottom" "top"
    (rect_top target) (rect_height target) (offsetHeight popup)
    (targetMargin variant) pos ali
    (fst (verticalAxis variant target popup pos ali))
    (snd (verticalAxis variant target popup pos ali)).
Proof.
  unfold axis_rule, verticalAxis. tok_cases; subst; simpl;
    repeat split; intros; congruence.
Qed.

Lemma horizontalAxis_rule variant (target : DOMRect num) popup
    (r : Positioner num) :
  transformOriginX r
    = fst (horizontalAxis variant target popup (position r) (alignment r)) ->
  css_left r
    = snd (horizontalAxis variant target popup (position r) (alignment r)) ->
  horizontal_rule variant target popup r.
Proof.
  unfold horizontal_rule. cbv zeta. intros -> ->.
  generalize (position r) (alignment r). intros pos ali.
  unfold horizontalAxis.
  tok_cases; subst; simpl; repeat split; intros; congruence.
Qed.

Lemma targetMargin_variants :
  targetMargin "rich" = nlit 0 /\ targetMargin "plain" = nlit 4.
Proof. split; reflexivity. Qed.

(** C1 (as amended).  For a placement other than [auto] the pass uses the
    placement as it is, splits it at the dash into position and alignment,
    and computes: on the vertical axis the rule of the specification
    (position [top]: origin-Y bottom, top = targetTop - popupHeight -
    targetMargin; position [bottom]: origin-Y top, top = targetTop +
    targetHeight + targetMargin; otherwise origin-Y center with [start],
    [end] and no alignment choosing the coordinate); on the horizontal axis
    the same rule for the positions [left] and [right] and, under any other
    position, the alignments [left] and [right] of the corner placements
    acting as those positions do, the origin being the center only for the
    remaining alignments.  The target margin is 0 for [rich], 4 for
    [plain]. *)
Theorem updatePositioner_concrete_placement variant placement
    (target : DOMRect num) (popup : PopupBox num) (win : Viewport num) :
  placement <> "auto" ->
  let r := updatePositioner variant placement target popup win in
  placement_used r = placement /\
  position r = Js.split "-" placement !! 0%nat /\
  alignment r = Js.split "-" placement !! 1%nat /\
  vertical_rule variant target popup r /\
  horizontal_rule variant target popup r /\
  css_transformOrigin r = transformOriginX r ++ " " ++ transformOriginY r /\
  targetMargin "rich" = nlit 0 /\
  targetMargin "plain" = nlit 4.
Proof.
  intros Hp r. subst r. unfold updatePositioner.
  rewrite (resolvePlacement_concrete _ _ _ _ _ Hp). cbn zeta.
  split; [reflexivity |]. split; [reflexivity |]. split; [reflexivity |].
  split; [apply verticalAxis_rule |].
  split; [apply horizontalAxis_rule; reflexivity |].
  split; [reflexivity |]. split; reflexivity.
Qed.

End Concrete.

(** The pass run on a plain tooltip placed [bottom-start]. *)
Lemma updatePositioner_concrete_placement_witness :
  "bottom-start" <> "auto" /\
  let r := updatePositioner "plain" "bottom-start"
             (target_at 100 200) popup_200x100 viewport_1000x800 in
  placement_used r = "bottom-start" /\
  position r = Js.split "-" "bottom-start" !! 0%nat /\
  alignment r = Js.split "-" "bottom-start" !! 1%nat /\
  vertical_rule "plain" (target_at 100 200) popup_200x100 r /\
  horizontal_rule "plain" (target_at 100 200) popup_200x100 r /\
  css_transformOrigin r = transformOriginX r ++ " " ++ transformOriginY r /\
  targetMargin (num := Q) "rich" = nlit 0 /\
  targetMargin (num := Q) "plain" = nlit 4.
Proof.
  split; [discriminate |].
  apply (updatePositioner_concrete_placement (num := Q)); discriminate.
Defined.

(** C1 (as stated) fails: for the corner placement [top-left] the
    horizontal axis does not follow the mirror image of the vertical rule,
    which asks for origin-X center whenever the position is neither [left]
    nor [right]; the pass gives origin-X right. *)
Lemma horizontal_rule_symmetric_fails_top_left :
  ~ horizontal_rule_symmetric "rich" (target_at 700 900) popup_200x100
      (updatePositioner "rich" "top-left"
         (target_at 700 900) popup_200x100 viewport_1000x800).
Proof.
  unfold horizontal_rule_symmetric, axis_rule.
  intros (_ & _ & Hc).
  destruct Hc as [Ho _]; [vm_compute; discriminate .. |].
  vm_compute in Ho. discriminate.
Qed.

Example top_left_runs :
  let r := updatePositioner "rich" "top-left"
             (target_at 700 900) popup_200x100 viewport_1000x800 in
  (position r, alignment r, css_transformOrigin r)
  = (Some "top", Some "left", "right bottom") /\
  Qeq (css_top r) (inject_Z 600) /\ Qeq (css_left r) (inject_Z 700).
Proof. vm_compute. repeat split. Qed.

(** How the documented placements split into position and alignment. *)
Example documented_placements_split :
  map (fun p => (Js.split "-" p !! 0%nat, Js.split "-" p !! 1%nat))
      concrete_placements
  = [ (Some "top", Some "left"); (Some "top", Some "start");
      (Some "top", None); (Some "top", Some "end"); (Some "top", Some "right");
      (Some "bottom", Some "left"); (Some "bottom", Some "start");
      (Some "bottom", None); (Some "bottom", Some "end");
      (Some "bottom", Some "right");
      (Some "left", Some "start"); (Some "left", None); (Some "left", Some "end");
      (Some "right", Some "start"); (Some "right", None);
      (Some "right", Some "end") ].
Proof. reflexivity. Qed.

Section Auto.
Context {num : Type} `{JsArith num}.
Local Open Scope js_scope.

Lemma autoPlacement_first_match rich f :
  autoPlacement rich f
  = if rich then first_match (rich_priority f) "bottom-right"
    else first_match (plain_priority f) "top".
Proof. destruct rich; reflexivity. Qed.

Lemma autoPlacement_concrete rich f :
  In (autoPlacement rich f) concrete_placements.
Proof.
  unfold autoPlacement.
  destruct rich, (hasTopSpace f), (hasBottomSpace f), (hasLeftSpace f),
    (hasRightSpace f); vm_compute; tauto.
Qed.

Lemma concrete_placements_not_auto p :
  In p concrete_placements -> p <> "auto".
Proof.
  unfold concrete_placements. simpl. intros Hin ->.
  repeat (destruct Hin as [Hin | Hin]; [discriminate |]). exact Hin.
Qed.

(** C2.  With placement [auto] the pass computes the four space flags by
    comparing the room on each side of the target with the popup dimension
    plus target margin plus popup margin, and uses the first placement of
    the priority list whose flags hold: for [rich] bottom-right,
    bottom-left, top-right, top-left, bottom, top, right, left with
    fallback bottom-right; for [plain] (any variant that is not [rich])
    top, bottom, left, right with fallback top.  The placement used is one
    of the documented concrete placements and is never [auto]. *)
Theorem auto_placement_priority variant
    (target : DOMRect num) (popup : PopupBox num) (win : Viewport num) :
  let f := spaceFlags variant target popup win in
  let r := updatePositioner variant "auto" target popup win in
  hasTopSpace f
    = (rect_top target
         >? offsetHeight popup + targetMargin variant + popupMargin) /\
  hasBottomSpace f
    = (win_height win - rect_top target - rect_height target
         >? offsetHeight popup + targetMargin variant + popupMargin) /\
  hasLeftSpace f
    = (rect_left target
         >? offsetWidth popup + targetMargin variant + popupMargin) /\
  hasRightSpace f
    = (win_width win - rect_left target - rect_width target
         >? offsetWidth popup + targetMargin variant + popupMargin) /\
  placement_used r
    = (if isRich variant
       then first_match (rich_priority f) "bottom-right"
       else first_match (plain_priority f) "top") /\
  isRich "rich" = true /\
  isRich "plain" = false /\
  In (placement_used r) concrete_placements /\
  placement_used r <> "auto".
Proof.
  intros f r.
  assert (Hr : placement_used r = autoPlacement (isRich variant) f)
    by reflexivity.
  do 4 (split; [reflexivity |]).
  split; [rewrite Hr; apply autoPlacement_first_match |].
  do 2 (split; [reflexivity |]).
  rewrite Hr. split.
  - apply autoPlacement_concrete.
  - apply concrete_placements_not_auto, autoPlacement_concrete.
Qed.

(** C3.  A [rich] tooltip in a 1000x800 viewport whose target leaves no
    room below and none to the right, but room above and to the left, is
    placed [top-left] by the automatic resolution. *)
Theorem auto_rich_bottom_right_corner
    (target : DOMRect num) (popup : PopupBox num) :
  let win := {| win_height := nlit 800; win_width := nlit 1000 |} in
  hasBottomSpace (spaceFlags "rich" target popup win) = false ->
  hasRightSpace (spaceFlags "rich" target popup win) = false ->
  hasTopSpace (spaceFlags "rich" target popup win) = true ->
  hasLeftSpace (spaceFlags "rich" target popup win) = true ->
  placement_used (updatePositioner "rich" "auto" target popup win)
  = "top-left".
Proof.
  intros win Hb Hr Ht Hl.
  change (placement_used (updatePositioner "rich" "auto" target popup win))
    with (autoPlacement true (spaceFlags "rich" target popup win)).
  unfold autoPlacement. rewrite Hb, Hr, Ht, Hl. reflexivity.
Qed.

End Auto.

(** A 80x40 target at (900, 700) in the 1000x800 viewport, popup 200x100:
    60 units are left below and 20 to the right, 104 and 204 are needed. *)
Lemma auto_rich_bottom_right_corner_witness :
  let f := spaceFlags "rich" (target_at 700 900) popup_200x100
             viewport_1000x800 in
  (hasBottomSpace f = false /\ hasRightSpace f = false /\
   hasTopSpace f = true /\ hasLeftSpace f = true) /\
  placement_used
    (updatePositioner "rich" "auto"
       (target_at 700 900) popup_200x100 viewport_1000x800)
  = "top-left".
Proof.
  cbv zeta. split; [repeat split; vm_compute; reflexivity |].
  refine (auto_rich_bottom_right_corner (num := Q)
            (target_at 700 900) popup_200x100 _ _ _ _);
    vm_compute; reflexivity.
Defined.

End GeometryFacts.

Module TriggerFacts.
Import Trigger TriggerRules.






Lemma run_cons e es s : run (e :: es) s = run es (handle e s).
Proof. reflexivity. Qed.














(** The same reading fails in another way, about which C5 as amended says
    nothing: the listener of [requestClose] puts its timeout in
    [hoverTimeout] without cancelling the one kept there (line 237),
    where both handlers of the target cancel first (lines 285 and 295).
    On the closed tooltip with a stray open delay (timeout 4, due 150 ms
    after the state is reached) the pointer enters the target and leaves
    it 100 ms later: the mouseleave cancels the open delay this
    mouseenter started, and 50 ms later the stray one opens the
    tooltip. *)
Lemma stray_open_delay_opens_after_leave :
  ~ leave_before_open_delay_keeps_closed closed_with_stray_open_delay 150
      [Advance 100] [Advance 50; TimerFire 4].
Proof.
  unfold leave_before_open_delay_keeps_closed. intros Hclaim.
  assert (Hopen :
    open (run (MouseEnter
                 :: ([Advance 100] ++ MouseLeave
                       :: [Advance 50; TimerFire 4])%list)
            closed_with_stray_open_delay) = false).
  { apply Hclaim; try reflexivity; repeat constructor. }
  vm_compute in Hopen. discriminate Hopen.
Qed.

Example closed_with_stray_open_delay_runs :
  open closed_with_stray_open_delay = false /\
  hoverTimeout closed_with_stray_open_delay = Some 5%nat /\
  now (window closed_with_stray_open_delay) = 300 /\
  timers (window closed_with_stray_open_delay) !! 2%nat
  = Some {| callback := CbRequestClose; delay := DNum 150; due := 300 |} /\
  timers (window closed_with_stray_open_delay) !! 4%nat
  = Some {| callback := CbSetOpen true; delay := DNum 150; due := 450 |} /\
  size (timers (window closed_with_stray_open_delay)) = 2%nat.
Proof. vm_compute. repeat split. Qed.

(** *** The timer slot *)

Lemma clear_hoverTimeout_lookup s id :
  timers (window (clear_hoverTimeout s)) !! id
  = if decide (hoverTimeout s = Some id) then None
    else timers (window s) !! id.
Proof.
  destruct (decide (hoverTimeout s = Some id)) as [Hd | Hd];
    unfold clear_hoverTimeout; simpl.
  - rewrite Hd. simpl. apply lookup_delete_eq.
  - destruct (hoverTimeout s) as [i|]; simpl; [| reflexivity].
    apply lookup_delete_ne. congruence.
Qed.

Lemma start_hoverTimeout_lookup cb d s id :
  timers (window (start_hoverTimeout cb d s)) !! id
  = if decide (next_timer (window s) = id)
    then Some {| callback := cb; delay := d;
                 due := now (window s) + timeout_ms d |}
    else timers (window s) !! id.
Proof. unfold start_hoverTimeout. simpl. apply lookup_insert. Qed.

Lemma ids_fresh_clear s : ids_fresh s -> ids_fresh (clear_hoverTimeout s).
Proof.
  intros [Hp Hs]. split.
  - intros id. rewrite clear_hoverTimeout_lookup.
    case_decide; [intros [? ?]; discriminate |].
    replace (next_timer (window (clear_hoverTimeout s)))
      with (next_timer (window s))
      by (unfold clear_hoverTimeout; simpl; now destruct (hoverTimeout s)).
    apply Hp.
  - intros id Hid.
    replace (next_timer (window (clear_hoverTimeout s)))
      with (next_timer (window s))
      by (unfold clear_hoverTimeout; simpl; now destruct (hoverTimeout s)).
    apply Hs. exact Hid.
Qed.

Lemma ids_fresh_start cb d s :
  ids_fresh s -> ids_fresh (start_hoverTimeout cb d s).
Proof.
  intros [Hp Hs]. split.
  - intros id. rewrite start_hoverTimeout_lookup. simpl.
    case_decide as Hd; [subst; lia |].
    intros Hsome. specialize (Hp id Hsome). lia.
  - simpl. intros id [= <-]. lia.
Qed.

Lemma slot_owns_clear s :
  slot_owns s ->
  forall id, timers (window (clear_hoverTimeout s)) !! id = None.
Proof.
  intros Hown id. rewrite clear_hoverTimeout_lookup.
  case_decide as Hd; [reflexivity |].
  destruct (timers (window s) !! id) eqn:E; [|reflexivity].
  exfalso. apply Hd, Hown. rewrite E. eauto.
Qed.

Lemma slot_owns_start cb d s :
  (forall id, timers (window s) !! id = None) ->
  slot_owns (start_hoverTimeout cb d s).
Proof.
  intros Hnone id. rewrite start_hoverTimeout_lookup.
  case_decide as Hd; [subst; reflexivity |].
  rewrite Hnone. intros [? ?]. discriminate.
Qed.

Lemma slot_owns_size s :
  slot_owns s -> (size (timers (window s)) <= 1)%nat.
Proof.
  intros Hown. destruct (hoverTimeout s) as [i|] eqn:Hslot.
  - rewrite <- (size_dom (D := gset nat)).
    rewrite <- (size_singleton (C := gset nat) i).
    apply subseteq_size. intros x Hx.
    apply elem_of_dom in Hx. apply Hown in Hx.
    rewrite Hslot in Hx. injection Hx as ->. set_solver.
  - assert (Hempty : timers (window s) = ∅).
    { apply map_empty. intros id.
      destruct (timers (window s) !! id) eqn:E; [|reflexivity].
      assert (Hsome : is_Some (timers (window s) !! id)) by (rewrite E; eauto).
      apply Hown in Hsome. congruence. }
    rewrite Hempty, map_size_empty. lia.
Qed.

Lemma onMouseLeave_cases s :
  onMouseLeave s = clear_hoverTimeout s \/
  onMouseLeave s
  = start_hoverTimeout CbRequestClose (js_or (closeDelay s) 50)
      (clear_hoverTimeout s).
Proof.
  unfold onMouseLeave. cbv zeta.
  destruct (_ || _ || _); [left | right]; reflexivity.
Qed.

Lemma onMouseEnter_starts s :
  disabled s = false -> open s = false -> hasTrigger s "hover" = true ->
  truthy (openDelay s) = true ->
  onMouseEnter s
  = start_hoverTimeout (CbSetOpen true) (openDelay s) (clear_hoverTimeout s).
Proof.
  intros Hd Ho Hh Ht. unfold onMouseEnter. now rewrite Hd, Ho, Hh, Ht.
Qed.

Lemma onMouseEnter_cases s :
  onMouseEnter s = s \/ onMouseEnter s = set_open true s \/
  onMouseEnter s
  = start_hoverTimeout (CbSetOpen true) (openDelay s) (clear_hoverTimeout s).
Proof.
  unfold onMouseEnter.
  destruct (_ || _ || _); [now left |].
  destruct (truthy (openDelay s)); [right; right | right; left]; reflexivity.
Qed.

Lemma started_cancels_slot cb d s id :
  ids_fresh s -> hoverTimeout s = Some id ->
  timers (window (start_hoverTimeout cb d (clear_hoverTimeout s))) !! id
  = None.
Proof.
  intros [_ Hs] Hid. rewrite start_hoverTimeout_lookup.
  replace (next_timer (window (clear_hoverTimeout s)))
    with (next_timer (window s))
    by (unfold clear_hoverTimeout; simpl; now destruct (hoverTimeout s)).
  specialize (Hs id Hid).
  case_decide; [lia |].
  rewrite clear_hoverTimeout_lookup. now rewrite decide_True.
Qed.

Lemma requestClose_window s : window (requestClose s) = window s.
Proof. unfold requestClose. now destruct (negb _). Qed.

Lemma requestClose_hoverTimeout s :
  hoverTimeout (requestClose s) = hoverTimeout s.
Proof. unfold requestClose. now destruct (negb _). Qed.

Lemma keeps_timers_same s s' :
  hoverTimeout s' = hoverTimeout s -> window s' = window s ->
  keeps_timers s s'.
Proof. intros Hh Hw. unfold keeps_timers. rewrite Hh, Hw. auto. Qed.

Lemma keeps_timers_refl s : keeps_timers s s.
Proof. now apply keeps_timers_same. Qed.

Lemma keeps_timers_requestClose s : keeps_timers s (requestClose s).
Proof.
  unfold keeps_timers.
  rewrite requestClose_window, requestClose_hoverTimeout. repeat split; auto.
Qed.

Lemma keeps_timers_fire id s : keeps_timers s (fire id s).
Proof.
  unfold fire. destruct (timers (window s) !! id) as [t|] eqn:Ht;
    [| apply keeps_timers_refl].
  destruct (due t <=? now (window s)); [| apply keeps_timers_refl].
  assert (Hdel : forall s', hoverTimeout s' = hoverTimeout s ->
            window s' = clearTimeout (Some id) (window s) ->
            keeps_timers s s').
  { intros s' Hh Hw. unfold keeps_timers. rewrite Hh, Hw. simpl.
    repeat split; auto. intros id'.
    destruct (decide (id = id')) as [-> | Hne].
    - rewrite lookup_delete_eq. intros [? ?]. discriminate.
    - now rewrite lookup_delete_ne. }
  destruct (callback t); cbn [run_timer]; apply Hdel.
  - reflexivity.
  - reflexivity.
  - now rewrite requestClose_hoverTimeout.
  - now rewrite requestClose_window.
Qed.

Lemma keeps_timers_fresh s s' :
  keeps_timers s s' -> ids_fresh s -> ids_fresh s'.
Proof.
  intros (Hh & Hn & Ht) [Hp Hs]. split.
  - intros id Hid. rewrite Hn. apply Hp, Ht, Hid.
  - intros id Hid. rewrite Hn. apply Hs. now rewrite <- Hh.
Qed.

Lemma keeps_timers_owns s s' :
  keeps_timers s s' -> slot_owns s -> slot_owns s'.
Proof.
  intros (Hh & _ & Ht) Hown id Hid. rewrite Hh. apply Hown, Ht, Hid.
Qed.

Lemma handle_keeps_timers e s :
  e <> MouseEnter -> e <> MouseLeave ->
  (e = PopupMouseLeave -> mouseLeaveItems (hoverController s) = []) ->
  keeps_timers s (handle e s).
Proof.
  intros Hne Hnl Hpl. destruct e; simpl; try contradiction.
  - unfold onFocus. destruct (_ || _ || _);
      now apply keeps_timers_same.
  - unfold onBlur. destruct (_ || _ || _);
      [apply keeps_timers_refl | apply keeps_timers_requestClose].
  - unfold onClick. destruct (_ || _ || _); [apply keeps_timers_refl |].
    destruct (_ && _); now apply keeps_timers_same.
  - unfold onKeydown. destruct (_ || _ || _);
      [apply keeps_timers_refl | apply keeps_timers_requestClose].
  - unfold onDocumentClick. destruct (_ || _); [apply keeps_timers_refl |].
    destruct (negb inside);
      [apply keeps_timers_requestClose | apply keeps_timers_refl].
  - now apply keeps_timers_same.
  - unfold popupMouseLeave. rewrite (Hpl eq_refl). simpl.
    now apply keeps_timers_same.
  - apply keeps_timers_fire.
  - unfold keeps_timers. simpl. auto.
  - now apply keeps_timers_same.
Qed.

Lemma slot_step e s :
  ids_fresh s ->
  (e = PopupMouseLeave -> mouseLeaveItems (hoverController s) = []) ->
  slot_owns s ->
  ids_fresh (handle e s) /\ slot_owns (handle e s).
Proof.
  intros Hfresh Hpl Hown.
  assert (Hk : e <> MouseEnter -> e <> MouseLeave ->
               ids_fresh (handle e s) /\ slot_owns (handle e s)).
  { intros Hne Hnl.
    pose proof (handle_keeps_timers e s Hne Hnl Hpl) as Hk.
    split; [eapply keeps_timers_fresh | eapply keeps_timers_owns]; eauto. }
  destruct e; try (apply Hk; discriminate); simpl.
  - destruct (onMouseEnter_cases s) as [-> | [-> | ->]].
    + now split.
    + now split.
    + split; [apply ids_fresh_start, ids_fresh_clear, Hfresh |].
      apply slot_owns_start, slot_owns_clear, Hown.
  - destruct (onMouseLeave_cases s) as [-> | ->].
    + split; [apply ids_fresh_clear, Hfresh |].
      intros id. rewrite (slot_owns_clear s Hown). intros [? ?].
      discriminate.
    + split; [apply ids_fresh_start, ids_fresh_clear, Hfresh |].
      apply slot_owns_start, slot_owns_clear, Hown.
Qed.

Lemma slot_run es s :
  Forall (fun e => e <> PopupMouseLeave) es ->
  ids_fresh s -> slot_owns s ->
  ids_fresh (run es s) /\ slot_owns (run es s).
Proof.
  intros Hes. revert s. induction Hes as [|e es He _ IH]; intros s Hf Ho.
  - now split.
  - rewrite run_cons.
    destruct (slot_step e s Hf (fun H => False_ind _ (He H)) Ho) as [Hf' Ho'].
    now apply IH.
Qed.

Lemma initial_fresh : ids_fresh initial.
Proof.
  split.
  - intros id [t Ht]. simpl in Ht. rewrite lookup_empty in Ht. discriminate.
  - intros id Hid. discriminate.
Qed.

Lemma initial_owns : slot_owns initial.
Proof. intros id [t Ht]. simpl in Ht. rewrite lookup_empty in Ht. discriminate. Qed.

(** C4 (as amended).  The open delay and the close delay of the target's
    mouseenter and mouseleave handlers share the single slot
    [hoverTimeout]: a mouseleave always cancels the timeout the slot keeps;
    a mouseenter that starts the open delay first cancels the timeout the
    slot keeps, whichever it is (a pending close delay included), and puts
    the open delay in the slot.  When every pending timeout is the one in
    the slot, this is still so, and at most one timeout is pending, after
    every event but one: the pointer leaving the popup while a listener
    of [requestClose] waits for it (line 237 puts a timeout in the slot
    without cancelling the one it keeps), about which nothing is said. *)
Theorem hover_timers_share_one_slot s :
  ids_fresh s ->
  (forall id, hoverTimeout s = Some id ->
     timers (window (handle MouseLeave s)) !! id = None) /\
  (disabled s = false -> open s = false -> hasTrigger s "hover" = true ->
   truthy (openDelay s) = true ->
     hoverTimeout (handle MouseEnter s) = Some (next_timer (window s)) /\
     timers (window (handle MouseEnter s)) !! next_timer (window s)
     = Some {| callback := CbSetOpen true; delay := openDelay s;
               due := now (window s) + timeout_ms (openDelay s) |} /\
     forall id, hoverTimeout s = Some id ->
       timers (window (handle MouseEnter s)) !! id = None) /\
  (forall e,
     (e = PopupMouseLeave -> mouseLeaveItems (hoverController s) = []) ->
     slot_owns s ->
     ids_fresh (handle e s) /\ slot_owns (handle e s) /\
     (size (timers (window (handle e s))) <= 1)%nat) /\
  (forall es, Forall (fun e => e <> PopupMouseLeave) es -> slot_owns s ->
     slot_owns (run es s) /\
     (size (timers (window (run es s))) <= 1)%nat).
Proof.
  intros Hfresh. split; [| split; [| split]].
  - intros id Hid. simpl.
    destruct (onMouseLeave_cases s) as [-> | ->].
    + rewrite clear_hoverTimeout_lookup. now rewrite decide_True.
    + now apply started_cancels_slot.
  - intros Hd Ho Hh Ht. simpl.
    rewrite (onMouseEnter_starts s Hd Ho Hh Ht).
    assert (Hnext : next_timer (window (clear_hoverTimeout s))
                    = next_timer (window s))
      by (unfold clear_hoverTimeout; simpl; now destruct (hoverTimeout s)).
    assert (Hnow : now (window (clear_hoverTimeout s)) = now (window s))
      by (unfold clear_hoverTimeout; simpl; now destruct (hoverTimeout s)).
    split; [| split].
    + change (hoverTimeout (start_hoverTimeout (CbSetOpen true) (openDelay s)
                              (clear_hoverTimeout s)))
        with (Some (next_timer (window (clear_hoverTimeout s)))).
      now rewrite Hnext.
    + rewrite start_hoverTimeout_lookup, Hnext, Hnow.
      now rewrite decide_True.
    + intros id Hid. now apply started_cancels_slot.
  - intros e He Hown.
    destruct (slot_step e s Hfresh He Hown) as [Hf Ho].
    split; [exact Hf | split; [exact Ho |]].
    now apply slot_owns_size.
  - intros es Hes Hown.
    destruct (slot_run es s Hes Hfresh Hown) as [_ Ho].
    split; [exact Ho | now apply slot_owns_size].
Qed.

(** In the state the constructor leaves, no timeout is pending. *)
Example initial_slot_owns : ids_fresh initial /\ slot_owns initial.
Proof. split; [exact initial_fresh | exact initial_owns]. Qed.

Lemma closed_with_pending_close_timers :
  timers (window closed_with_pending_close)
  = {[ 2%nat := {| callback := CbRequestClose; delay := DNum 150;
                   due := 300 |} ]}.
Proof. vm_compute. reflexivity. Qed.

Lemma closed_with_pending_close_fresh : ids_fresh closed_with_pending_close.
Proof.
  split.
  - intros id [t Ht]. rewrite closed_with_pending_close_timers in Ht.
    apply lookup_singleton_Some in Ht as [<- _]. vm_compute. lia.
  - intros id Hid. vm_compute in Hid. injection Hid as <-. vm_compute. lia.
Qed.

(** The slot of a tooltip closed from outside while its close delay is
    pending: the next mouseenter cancels that close delay. *)
Lemma hover_timers_share_one_slot_witness :
  ids_fresh closed_with_pending_close /\
  hoverTimeout closed_with_pending_close = Some 2%nat /\
  timers (window (handle MouseEnter closed_with_pending_close)) !! 2%nat
  = None.
Proof.
  split; [exact closed_with_pending_close_fresh |].
  split; [reflexivity |].
  refine (proj2 (proj2 (proj1 (proj2
            (hover_timers_share_one_slot closed_with_pending_close
               closed_with_pending_close_fresh)) _ _ _ _)) 2%nat _);
    reflexivity.
Defined.

(** C4 (as stated) fails: the open delay has no slot of its own.  On the
    tooltip closed from outside while its close delay (timeout 2) is
    pending, the mouseenter cancels that close delay. *)
Lemma mouseenter_cancels_pending_close :
  ~ mouseenter_keeps_close_timers closed_with_pending_close.
Proof.
  intros Hkeep.
  specialize (Hkeep 2%nat
                {| callback := CbRequestClose; delay := DNum 150;
                   due := 300 |}).
  rewrite closed_with_pending_close_timers, lookup_singleton_eq in Hkeep.
  specialize (Hkeep eq_refl ltac:(discriminate)).
  vm_compute in Hkeep. discriminate.
Qed.


(** *** Pointer-down on the document *)

(** C6.  What the code does, where the claim and the comment of line 313
    have the tooltip closed directly: a pointer-down on the document
    whose path does not include the tooltip, while the tooltip is open
    and not disabled, is the call of [requestClose].  The tooltip closes
    at once when the pointer is not over the popup; when it is, the
    tooltip stays open and a one-shot listener for the pointer leaving
    the popup is registered, no timeout being started or cancelled.  A
    pointer-down whose path includes the tooltip changes nothing. *)
Theorem outside_pointer_down_requests_close s :
  open s = true ->
  disabled s = false ->
  handle (DocumentPointerDown false) s = requestClose s /\
  (isHover (hoverController s) = false ->
     handle (DocumentPointerDown false) s = set_open false s /\
     open (handle (DocumentPointerDown false) s) = false) /\
  (isHover (hoverController s) = true ->
     open (handle (DocumentPointerDown false) s) = true /\
     mouseLeaveItems (hoverController (handle (DocumentPointerDown false) s))
     = (mouseLeaveItems (hoverController s)
          ++ [{| item_callback := LeaveThenClose; item_one := true |}])%list /\
     window (handle (DocumentPointerDown false) s) = window s /\
     hoverTimeout (handle (DocumentPointerDown false) s) = hoverTimeout s) /\
  handle (DocumentPointerDown true) s = s.
Proof.
  intros Ho Hd. simpl. unfold onDocumentClick. rewrite Ho, Hd. simpl.
  split; [reflexivity |]. split; [| split; [| reflexivity]].
  - intros Hh. unfold requestClose. rewrite Hh. simpl. now split.
  - intros Hh. unfold requestClose. rewrite Hh. simpl.
    repeat split; try reflexivity. exact Ho.
Qed.

Lemma outside_pointer_down_requests_close_witness :
  (open open_and_hovered = true /\ disabled open_and_hovered = false) /\
  isHover (hoverController open_and_hovered) = true /\
  open (handle (DocumentPointerDown false) open_and_hovered) = true.
Proof.
  split; [split; reflexivity |]. split; [reflexivity |].
  exact (proj1 (proj1 (proj2 (proj2
           (outside_pointer_down_requests_close open_and_hovered
              eq_refl eq_refl))) eq_refl)).
Defined.

(** At the input where C6 fails: with the pointer resting on the popup of
    an open tooltip, a pointer-down outside the tooltip does not close
    it, against the comment of the handler (line 313), which has the
    tooltip closed directly. *)
Lemma outside_pointer_down_deferred_while_hovered :
  ~ outside_pointer_down_closes open_and_hovered.
Proof.
  unfold outside_pointer_down_closes. intros Hclaim.
  specialize (Hclaim eq_refl eq_refl). vm_compute in Hclaim. discriminate.
Qed.

(** *** The close delay *)






End TriggerFacts.

Module OpenChangeFacts.
Import OpenChange OpenChangeRules.

Lemma others_spec i v doc j :
  In j (others i v doc) <->
  j <> i /\ exists e, doc !! j = Some e /\ variant e = v.
Proof.
  unfold others. rewrite filter_In, in_seq, andb_true_iff, negb_true_iff,
    Nat.eqb_neq.
  split.
  - intros (_ & Hne & Hv). split; [exact Hne |].
    destruct (doc !! j) as [e|]; [| discriminate].
    exists e. split; [reflexivity | now apply String.eqb_eq].
  - intros (Hne & e & He & Hv). split.
    + apply lookup_lt_Some in He. lia.
    + split; [exact Hne |]. rewrite He. now apply String.eqb_eq.
Qed.

Lemma fold_alter_lookup (f : Element -> Element) js (d : list Element) j :
  (forall x, f (f x) = f x) ->
  fold_left (fun d j => alter f j d) js d !! j
  = if in_dec Nat.eq_dec j js then f <$> d !! j else d !! j.
Proof.
  intros Hidem. revert d. induction js as [|j0 js IH]; intros d.
  - reflexivity.
  - cbn [fold_left]. rewrite IH.
    destruct (in_dec Nat.eq_dec j (j0 :: js)) as [Hin | Hnin];
      destruct (in_dec Nat.eq_dec j js) as [Hin' | Hnin'].
    + destruct (decide (j0 = j)) as [-> | Hne].
      * rewrite list_lookup_alter_eq.
        destruct (d !! j); simpl; [now rewrite Hidem | reflexivity].
      * now rewrite list_lookup_alter_ne.
    + destruct Hin as [-> | Hin]; [| contradiction].
      apply list_lookup_alter_eq.
    + exfalso. apply Hnin. now right.
    + apply list_lookup_alter_ne. intros ->. apply Hnin. now left.
Qed.

Lemma closeOthers_lookup i v doc j :
  closeOthers i v doc !! j
  = if in_dec Nat.eq_dec j (others i v doc) then set_open false <$> doc !! j
    else doc !! j.
Proof. unfold closeOthers. now apply fold_alter_lookup. Qed.

Lemma closeOthers_self i v (doc : list Element) :
  closeOthers i v doc !! i = doc !! i.
Proof.
  rewrite closeOthers_lookup.
  destruct (in_dec _ _ _) as [Hin | _]; [| reflexivity].
  apply others_spec in Hin. tauto.
Qed.

Lemma onOpenChange_open_trace proceeds i doc me :
  doc !! i = Some me -> open me = true ->
  snd (onOpenChange proceeds i doc)
  = (map (fun j => SetOpenProp j false) (others i (variant me) doc)
       ++ own_effects proceeds i me)%list.
Proof.
  intros Hi Ho. unfold onOpenChange, own_effects. rewrite Hi, Ho.
  destruct (hasUpdated me && negb (proceeds i "open")); reflexivity.
Qed.

Lemma own_effects_no_close proceeds i me :
  Forall (fun x => is_SetOpenProp x = false) (own_effects proceeds i me).
Proof.
  unfold own_effects.
  destruct (hasUpdated me), (proceeds i "open"), (hasTarget me); simpl;
    repeat constructor.
Qed.

Lemma onOpenChange_open_lookup proceeds i doc me j :
  doc !! i = Some me -> open me = true -> j <> i ->
  fst (onOpenChange proceeds i doc) !! j
  = closeOthers i (variant me) doc !! j.
Proof.
  intros Hi Ho Hne. unfold onOpenChange. rewrite Hi, Ho.
  destruct (hasUpdated me && negb (proceeds i "open")); simpl;
    [reflexivity |].
  apply list_lookup_alter_ne. congruence.
Qed.

(** The watcher never writes the [open] field of the tooltip it runs on. *)
Lemma onOpenChange_keeps_open proceeds i doc me :
  doc !! i = Some me ->
  exists me', fst (onOpenChange proceeds i doc) !! i = Some me' /\
              open me' = open me /\ variant me' = variant me.
Proof.
  intros Hi. unfold onOpenChange. rewrite Hi.
  destruct (open me) eqn:Ho.
  - destruct (hasUpdated me && negb (proceeds i "open")); simpl.
    + exists me. now rewrite closeOthers_self.
    + exists (set_popupHidden false me).
      rewrite list_lookup_alter_eq, closeOthers_self, Hi. now simpl.
  - destruct (hasUpdated me); simpl; [| now exists me].
    destruct (negb (proceeds i "close")); simpl; [now exists me |].
    exists (set_popupHidden true me). rewrite list_lookup_alter_eq, Hi. now simpl.
Qed.

(** C7 (as amended).  When the watcher runs on a tooltip that has become
    open (its variant being one the selector reads as it is), every other
    tooltip of the document with the same variant has [open] set to
    false, and this comes first: the trace of the watcher is the closing
    of the others followed by effects of the opening tooltip alone.  The
    change of [open] cannot be refused: whatever the listeners of such a
    tooltip answer to its [close] event when its own watcher runs, its
    [open] stays false.  The rest of its closing can: when a listener
    prevents the default of that [close] event, the watcher stops after
    emitting it and the popup of the tooltip is left as it was (shown);
    otherwise the exit animation runs, the popup is hidden and [closed]
    is emitted.  Tooltips of another variant are left as they are. *)
Theorem opening_closes_same_variant_tooltips proceeds i doc me :
  doc !! i = Some me ->
  open me = true ->
  css_literal (variant me) = true ->
  let doc' := fst (onOpenChange proceeds i doc) in
  let trace := snd (onOpenChange proceeds i doc) in
  (forall j e, j <> i -> doc !! j = Some e -> variant e = variant me ->
     doc' !! j = Some (set_open false e) /\
     In (SetOpenProp j false) trace) /\
  (exists rest,
     trace = (map (fun j => SetOpenProp j false) (others i (variant me) doc)
                ++ rest)%list /\
     Forall (fun x => is_SetOpenProp x = false) rest) /\
  (forall answers j e, j <> i -> doc !! j = Some e ->
     variant e = variant me ->
     let r := onOpenChange answers j doc' in
     (exists e', fst r !! j = Some e' /\ open e' = false) /\
     (hasUpdated e = true -> answers j "close" = false ->
        r = (doc', [Emit j "close" true]) /\
        fst r !! j = Some (set_open false e)) /\
     (hasUpdated e = true -> answers j "close" = true ->
        fst r !! j = Some (set_popupHidden true (set_open false e)) /\
        snd r = [Emit j "close" true; StopAnimations j; AnimateTo j 1 0 true;
                 SetHidden j true; Emit j "closed" false])) /\
  (forall j e, j <> i -> doc !! j = Some e -> variant e <> variant me ->
     doc' !! j = Some e).
Proof.
  intros Hi Ho _ doc' trace.
  assert (Hclosed : forall j e, j <> i -> doc !! j = Some e ->
            variant e = variant me -> doc' !! j = Some (set_open false e)).
  { intros j e Hne Hj Hv. subst doc'.
    rewrite (onOpenChange_open_lookup _ _ _ _ _ Hi Ho Hne).
    rewrite closeOthers_lookup, Hj.
    destruct (in_dec _ _ _) as [_ | Hnin]; [reflexivity |].
    exfalso. apply Hnin, others_spec. eauto. }
  split; [| split; [| split]].
  - intros j e Hne Hj Hv. split; [now apply Hclosed |].
    subst trace. rewrite (onOpenChange_open_trace _ _ _ _ Hi Ho).
    apply in_or_app. left.
    apply (in_map (fun j => SetOpenProp j false)).
    apply others_spec. eauto.
  - exists (own_effects proceeds i me). split.
    + subst trace. now apply onOpenChange_open_trace.
    + apply own_effects_no_close.
  - intros answers j e Hne Hj Hv r.
    pose proof (Hclosed j e Hne Hj Hv) as Hj'.
    split; [| split].
    + destruct (onOpenChange_keeps_open answers j doc' (set_open false e) Hj')
        as (e' & He' & Hopen & _).
      exists e'. split; [exact He' | exact Hopen].
    + intros Hu Hr. subst r. unfold onOpenChange. rewrite Hj'.
      cbn [open set_open hasUpdated]. rewrite Hu, Hr. cbn [negb fst].
      split; [reflexivity | exact Hj'].
    + intros Hu Hr. subst r. unfold onOpenChange. rewrite Hj'.
      cbn [open set_open hasUpdated]. rewrite Hu, Hr. cbn [negb fst snd].
      split; [| reflexivity].
      now rewrite list_lookup_alter_eq, Hj'.
  - intros j e Hne Hj Hv. subst doc'.
    rewrite (onOpenChange_open_lookup _ _ _ _ _ Hi Ho Hne).
    rewrite closeOthers_lookup.
    destruct (in_dec _ _ _) as [Hin | _]; [| exact Hj].
    apply others_spec in Hin as (_ & e0 & He0 & Hv0). congruence.
Qed.

(** The second plain tooltip of three opens: the [open] of the first one
    is set to false, and a listener refusing its [close] event does not
    set it back but keeps its popup shown. *)
Lemma opening_closes_same_variant_tooltips_witness :
  (three_tooltips !! 1%nat = Some (just_opened "plain") /\
   open (just_opened "plain") = true /\
   css_literal (variant (just_opened "plain")) = true) /\
  fst (onOpenChange allow_all 1 three_tooltips) !! 0%nat
  = Some (set_open false (shown "plain")) /\
  fst (onOpenChange prevent_all 0
         (fst (onOpenChange allow_all 1 three_tooltips))) !! 0%nat
  = Some {| variant := "plain"; open := false; hasUpdated := true;
            popupHidden := false; hasTarget := true |}.
Proof.
  split; [repeat split |].
  pose proof (opening_closes_same_variant_tooltips allow_all 1 three_tooltips
                (just_opened "plain") eq_refl eq_refl eq_refl) as H.
  cbv zeta in H. destruct H as (Hclosed & _ & Hforced & _).
  split.
  - apply (Hclosed 0%nat (shown "plain")); [discriminate | reflexivity ..].
  - destruct (Hforced prevent_all 0%nat (shown "plain"))
      as (_ & Hrefused & _); [discriminate | reflexivity ..|].
    exact (proj2 (Hrefused eq_refl eq_refl)).
Defined.

(** C7 (as stated) fails: the forced close can be refused.  The second
    plain tooltip of three opens; the first one, whose listener prevents
    the default of its [close] event, has [open] false but its popup is
    still shown. *)
Lemma refused_close_leaves_popup_shown :
  ~ forced_close_cannot_be_refused allow_all prevent_all 1 0 three_tooltips.
Proof.
  intros (e' & He' & _ & Hhidden).
  vm_compute in He'. injection He' as <-. discriminate Hhidden.
Qed.



End OpenChangeFacts.

Module SwitchFacts.
Import Switch SwitchRules.

(** C10.  [checkValidity] emits the [invalid] event exactly when it
    returns false (and emits nothing else), and it returns the component
    as it was: [invalid], [checked] and every other field are unchanged.
    [reportValidity] returns the same answer and emits the event in the
    same case, but it stores the negation of the answer in [invalid]. *)
Theorem checkValidity_emits_iff_invalid
    (nativeValid : Input -> bool) (proceeds : string -> bool) (s : Switch) :
  let checked_ := checkValidity nativeValid s in
  let reported := reportValidity nativeValid proceeds s in
  (In invalid_event (snd (fst checked_)) <-> fst (fst checked_) = false) /\
  snd (fst checked_)
  = (if fst (fst checked_) then [] else [invalid_event]) /\
  fst (fst checked_) = nativeValid (inputRef s) /\
  snd checked_ = s /\
  invalid (snd checked_) = invalid s /\
  checked (snd checked_) = checked s /\
  fst (fst reported) = fst (fst checked_) /\
  (In invalid_event (snd (fst reported)) <-> fst (fst reported) = false) /\
  invalid (snd reported) = negb (nativeValid (inputRef s)) /\
  snd reported = set_invalid (negb (nativeValid (inputRef s))) s.
Proof.
  cbv zeta. unfold checkValidity, reportValidity. simpl.
  destruct (nativeValid (inputRef s)); simpl;
    repeat split; try reflexivity; try tauto; try discriminate;
    intros; auto.
Qed.

(** A required, unchecked switch: both methods answer false and emit
    [invalid]; only [reportValidity] marks the component invalid. *)
Example required_unchecked_runs :
  checkValidity html_checkbox_valid required_unchecked
  = (false, [invalid_event], required_unchecked) /\
  reportValidity html_checkbox_valid allow required_unchecked
  = (false, [invalid_event], set_invalid true required_unchecked) /\
  set_invalid true required_unchecked <> required_unchecked.
Proof. repeat split. discriminate. Qed.

End SwitchFacts.

(** * Further facts *)

Module JsMore.
Import Js MoreRules.

Lemma split_free sep s : free_of sep s = true -> split sep s = [s].
Proof.
  induction s as [|c rest IH]; simpl; [reflexivity |].
  intros Hf. apply andb_true_iff in Hf as [Hc Hrest].
  apply negb_true_iff in Hc. rewrite Hc, (IH Hrest). reflexivity.
Qed.

Lemma split_free_sep sep a rest :
  free_of sep a = true ->
  split sep (a ++ String sep rest) = a :: split sep rest.
Proof.
  induction a as [|c a IH]; simpl.
  - intros _. now rewrite Ascii.eqb_refl.
  - intros Hf. apply andb_true_iff in Hf as [Hc Ha].
    apply negb_true_iff in Hc. rewrite Hc, (IH Ha). reflexivity.
Qed.

(** Joining pieces that are free of the separator and splitting again
    gives the pieces back. *)
Lemma split_join sep pieces :
  pieces <> [] ->
  Forall (fun p => free_of sep p = true) pieces ->
  split sep (join sep pieces) = pieces.
Proof.
  intros Hne Hfree. induction Hfree as [|a rest Ha Hrest IH];
    [contradiction |].
  destruct rest as [|b rest].
  - simpl. now apply split_free.
  - change (join sep (a :: b :: rest))
      with (a ++ String sep (join sep (b :: rest))).
    rewrite (split_free_sep _ _ _ Ha). f_equal. now apply IH.
Qed.

(** Splitting and joining again gives the string back. *)
Lemma join_split sep s : join sep (split sep s) = s.
Proof.
  induction s as [|c rest IH]; [reflexivity |].
  pose proof (JsFacts.split_nonempty sep rest) as Hn.
  simpl. destruct (split sep rest) as [|w ws] eqn:E; [contradiction |].
  destruct (Ascii.eqb_spec c sep) as [-> | Hne].
  - change (join sep ("" :: w :: ws)) with (String sep (join sep (w :: ws))).
    now rewrite IH.
  - destruct ws as [|w' ws].
    + change (String c w = String c rest). f_equal. exact IH.
    + change (join sep (String c w :: w' :: ws))
        with (String c (join sep (w :: w' :: ws))).
      now rewrite IH.
Qed.

End JsMore.

Module GeometryMore.
Import Geometry PlacementRules MoreRules.

Section Pass.
Context {num : Type} `{JsArith num}.
Local Open Scope js_scope.

Lemma resolvePlacement_not_auto variant placement
    (target : DOMRect num) popup win :
  resolvePlacement variant placement target popup win <> "auto".
Proof.
  unfold resolvePlacement.
  destruct (String.eqb_spec placement "auto") as [_ | Hne]; [| exact Hne].
  apply GeometryFacts.concrete_placements_not_auto,
    GeometryFacts.autoPlacement_concrete.
Qed.

(** X1.  With a placement other than [auto] the pass never reads the
    viewport: whatever the viewport, it computes the same position, so a
    popup that does not fit is neither moved nor clamped. *)
Theorem concrete_placement_ignores_viewport variant placement
    (target : DOMRect num) (popup : PopupBox num) (win1 win2 : Viewport num) :
  placement <> "auto" ->
  updatePositioner variant placement target popup win1
  = updatePositioner variant placement target popup win2.
Proof.
  intros Hp. unfold updatePositioner.
  now rewrite !(GeometryFacts.resolvePlacement_concrete _ _ _ _ _ Hp).
Qed.

(** X2.  The placement a pass has used is a fixed point of the
    resolution: a second pass asked for that placement computes exactly
    what the first one did, for [auto] as for any other placement. *)
Theorem pass_stable_under_its_placement variant placement
    (target : DOMRect num) (popup : PopupBox num) (win : Viewport num) :
  let r := updatePositioner variant placement target popup win in
  updatePositioner variant (placement_used r) target popup win = r.
Proof.
  cbv zeta.
  assert (Hfix :
    resolvePlacement variant
      (resolvePlacement variant placement target popup win) target popup win
    = resolvePlacement variant placement target popup win)
    by apply GeometryFacts.resolvePlacement_concrete,
         resolvePlacement_not_auto.
  unfold updatePositioner. cbn [placement_used]. now rewrite Hfix.
Qed.

Lemma autoPlacement_side_has_room rich f :
  some_room f = true ->
  side_has_room f (Js.split "-" (autoPlacement rich f) !! 0%nat) = true /\
  side_has_room f (Js.split "-" (autoPlacement rich f) !! 1%nat) = true.
Proof.
  destruct f as [[] [] [] []], rich; intros Hroom;
    try discriminate Hroom; split; reflexivity.
Qed.

(** X3.  When at least one side of the target has room, the automatic
    resolution only names sides that have room: the flag of the position
    it chooses holds and, for a corner placement, so does the flag of the
    alignment. *)
Theorem auto_names_only_sides_with_room variant
    (target : DOMRect num) (popup : PopupBox num) (win : Viewport num) :
  let f := spaceFlags variant target popup win in
  let r := updatePositioner variant "auto" target popup win in
  some_room f = true ->
  side_has_room f (position r) = true /\
  side_has_room f (alignment r) = true.
Proof.
  intros f r Hroom.
  exact (autoPlacement_side_has_room (isRich variant) f Hroom).
Qed.

(** X4.  A placement that is not [auto] and names no side and no known
    alignment (the empty string, a misspelt value) is not refused: the
    popup is centred on the target on both axes and scales from its
    centre. *)
Theorem unknown_placement_centres variant placement
    (target : DOMRect num) (popup : PopupBox num) (win : Viewport num) :
  placement <> "auto" ->
  let r := updatePositioner variant placement target popup win in
  (forall side, In side ["top"; "bottom"; "left"; "right"] ->
     position r <> Some side) ->
  (forall a, In a ["start"; "end"; "left"; "right"] ->
     alignment r <> Some a) ->
  css_transformOrigin r = "center center" /\
  css_top r
  = rect_top target + rect_height target / nlit 2
      - offsetHeight popup / nlit 2 /\
  css_left r
  = rect_left target + rect_width target / nlit 2
      - offsetWidth popup / nlit 2.
Proof.
  intros Hp r Hpos Hali. subst r. unfold updatePositioner in *.
  rewrite (GeometryFacts.resolvePlacement_concrete _ _ _ _ _ Hp) in *.
  cbn [position alignment css_top css_left css_transformOrigin] in *.
  revert Hpos Hali.
  generalize (Js.split "-" placement !! 0%nat) (Js.split "-" placement !! 1%nat).
  intros pos ali Hpos Hali.
  assert (Ht : Js.is_tok pos "top" = false)
    by (apply JsFacts.is_tok_false, Hpos; simpl; tauto).
  assert (Hb : Js.is_tok pos "bottom" = false)
    by (apply JsFacts.is_tok_false, Hpos; simpl; tauto).
  assert (Hl : Js.is_tok pos "left" = false)
    by (apply JsFacts.is_tok_false, Hpos; simpl; tauto).
  assert (Hr : Js.is_tok pos "right" = false)
    by (apply JsFacts.is_tok_false, Hpos; simpl; tauto).
  assert (Hs : Js.is_tok ali "start" = false)
    by (apply JsFacts.is_tok_false, Hali; simpl; tauto).
  assert (He : Js.is_tok ali "end" = false)
    by (apply JsFacts.is_tok_false, Hali; simpl; tauto).
  assert (Hal : Js.is_tok ali "left" = false)
    by (apply JsFacts.is_tok_false, Hali; simpl; tauto).
  assert (Har : Js.is_tok ali "right" = false)
    by (apply JsFacts.is_tok_false, Hali; simpl; tauto).
  unfold verticalAxis, horizontalAxis.
  rewrite Ht, Hb, Hl, Hr, Hs, He, Hal, Har. repeat split.
Qed.

End Pass.

Lemma concrete_placement_ignores_viewport_witness :
  "top" <> "auto" /\
  updatePositioner "plain" "top" (target_at 0 0) popup_200x100
    viewport_1000x800
  = updatePositioner "plain" "top" (target_at 0 0) popup_200x100
      {| win_height := inject_Z 10; win_width := inject_Z 10 |}.
Proof.
  split; [discriminate |].
  apply (concrete_placement_ignores_viewport (num := Q)). discriminate.
Defined.

Lemma auto_names_only_sides_with_room_witness :
  let f := spaceFlags "rich" (target_at 700 900) popup_200x100
             viewport_1000x800 in
  let r := updatePositioner "rich" "auto" (target_at 700 900) popup_200x100
             viewport_1000x800 in
  some_room f = true /\
  side_has_room f (position r) = true /\
  side_has_room f (alignment r) = true.
Proof.
  cbv zeta. split; [vm_compute; reflexivity |].
  refine (auto_names_only_sides_with_room (num := Q) "rich"
            (target_at 700 900) popup_200x100 viewport_1000x800 _).
  vm_compute. reflexivity.
Defined.

Lemma unknown_placement_centres_witness :
  let r := updatePositioner "plain" "" (target_at 100 200) popup_200x100
             viewport_1000x800 in
  "" <> "auto" /\
  css_transformOrigin r = "center center" /\
  Qeq (css_top r) (inject_Z 70) /\ Qeq (css_left r) (inject_Z 140).
Proof.
  cbv zeta. split; [discriminate |].
  destruct (unknown_placement_centres (num := Q) "plain" ""
              (target_at 100 200) popup_200x100 viewport_1000x800)
    as (Ho & Ht & Hl).
  - discriminate.
  - intros side Hin. vm_compute. simpl in Hin.
    intuition (subst; discriminate).
  - intros a Hin. vm_compute. discriminate.
  - split; [exact Ho |]. rewrite Ht, Hl. vm_compute. split; reflexivity.
Defined.

End GeometryMore.


Module TriggerMore.
Import Trigger TriggerRules MoreRules.

(** The listeners registered on the hover controller, run in order. *)
Lemma run_leave_callback_eq cb s :
  run_leave_callback cb s
  = if hasTrigger s "hover"
    then start_hoverTimeout (CbSetOpen false) (js_or (closeDelay s) 50) s
    else set_open false s.
Proof. now destruct cb. Qed.

Lemma leave_all_inv (P : Tooltip -> Prop) items s :
  (forall st cb, P st -> P (run_leave_callback cb st)) ->
  P s ->
  P (fold_left (fun st it => run_leave_callback (item_callback it) st)
       items s).
Proof.
  intros Hstep. revert s. induction items as [|it items IH]; intros s Hs.
  - exact Hs.
  - simpl. apply IH, Hstep, Hs.
Qed.

Lemma ids_fresh_same s s' :
  timers (window s') = timers (window s) ->
  next_timer (window s') = next_timer (window s) ->
  hoverTimeout s' = hoverTimeout s ->
  ids_fresh s -> ids_fresh s'.
Proof.
  intros Ht Hn Hs [Hp Hslot]. split.
  - intros id. rewrite Ht, Hn. apply Hp.
  - intros id. rewrite Hs, Hn. apply Hslot.
Qed.

Lemma requestClose_cases s :
  requestClose s = set_open false s \/
  requestClose s
  = set_hoverController
      {| isHover := isHover (hoverController s);
         mouseLeaveItems :=
           (mouseLeaveItems (hoverController s)
              ++ [{| item_callback := LeaveThenClose; item_one := true |}])%list |}
      s.
Proof. unfold requestClose. destruct (negb _); [left | right]; reflexivity. Qed.

Lemma ids_fresh_requestClose s : ids_fresh s -> ids_fresh (requestClose s).
Proof.
  destruct (requestClose_cases s) as [-> | ->];
    apply ids_fresh_same; reflexivity.
Qed.

Lemma ids_fresh_run_leave_callback cb s :
  ids_fresh s -> ids_fresh (run_leave_callback cb s).
Proof.
  rewrite run_leave_callback_eq. destruct (hasTrigger s "hover").
  - apply TriggerFacts.ids_fresh_start.
  - apply ids_fresh_same; reflexivity.
Qed.

Lemma ids_fresh_fire id s : ids_fresh s -> ids_fresh (fire id s).
Proof.
  intros Hf. unfold fire.
  destruct (timers (window s) !! id) as [t|] eqn:E; [| exact Hf].
  destruct (due t <=? now (window s)); [| exact Hf].
  assert (Hdel : ids_fresh (set_window (clearTimeout (Some id) (window s)) s)).
  { destruct Hf as [Hp Hs]. split; simpl.
    - intros id' Hsome. apply Hp.
      destruct (decide (id = id')) as [<- | Hne].
      + rewrite lookup_delete_eq in Hsome. now destruct Hsome.
      + now rewrite lookup_delete_ne in Hsome.
    - exact Hs. }
  destruct (callback t); simpl.
  - revert Hdel. apply ids_fresh_same; reflexivity.
  - now apply ids_fresh_requestClose.
Qed.

Lemma ids_fresh_handle e s : ids_fresh s -> ids_fresh (handle e s).
Proof.
  intros Hf. destruct e; simpl.
  - unfold onFocus. destruct (_ || _ || _); [exact Hf |].
    revert Hf. apply ids_fresh_same; reflexivity.
  - unfold onBlur. destruct (_ || _ || _); [exact Hf |].
    now apply ids_fresh_requestClose.
  - unfold onClick. destruct (_ || _ || _); [exact Hf |].
    destruct (_ && _); [exact Hf |].
    revert Hf. apply ids_fresh_same; reflexivity.
  - unfold onKeydown. destruct (_ || _ || _); [exact Hf |].
    now apply ids_fresh_requestClose.
  - destruct (TriggerFacts.onMouseEnter_cases s) as [-> | [-> | ->]].
    + exact Hf.
    + revert Hf. apply ids_fresh_same; reflexivity.
    + now apply TriggerFacts.ids_fresh_start, TriggerFacts.ids_fresh_clear.
  - destruct (TriggerFacts.onMouseLeave_cases s) as [-> | ->].
    + now apply TriggerFacts.ids_fresh_clear.
    + now apply TriggerFacts.ids_fresh_start, TriggerFacts.ids_fresh_clear.
  - unfold onDocumentClick. destruct (_ || _); [exact Hf |].
    destruct (negb inside); [| exact Hf].
    now apply ids_fresh_requestClose.
  - revert Hf. apply ids_fresh_same; reflexivity.
  - unfold popupMouseLeave. cbv zeta.
    apply (leave_all_inv ids_fresh).
    + intros st cb. apply ids_fresh_run_leave_callback.
    + revert Hf. apply ids_fresh_same; reflexivity.
  - now apply ids_fresh_fire.
  - revert Hf. apply ids_fresh_same; reflexivity.
  - revert Hf. apply ids_fresh_same; reflexivity.
Qed.

Lemma one_shot_requestClose s :
  one_shot_items s -> one_shot_items (requestClose s).
Proof.
  intros Ho. destruct (requestClose_cases s) as [-> | ->]; [exact Ho |].
  unfold one_shot_items. simpl. apply Forall_app. split; [exact Ho |].
  now repeat constructor.
Qed.

Lemma hoverController_run_leave_callback cb s :
  hoverController (run_leave_callback cb s) = hoverController s.
Proof.
  rewrite run_leave_callback_eq. now destruct (hasTrigger s "hover").
Qed.

Lemma hoverController_leave_all items s :
  hoverController
    (fold_left (fun st it => run_leave_callback (item_callback it) st)
       items s)
  = hoverController s.
Proof.
  apply (leave_all_inv (fun st => hoverController st = hoverController s));
    [| reflexivity].
  intros st cb Hst. now rewrite hoverController_run_leave_callback.
Qed.

Lemma one_shot_handle e s : one_shot_items s -> one_shot_items (handle e s).
Proof.
  intros Ho. destruct e; simpl.
  - unfold onFocus. now destruct (_ || _ || _).
  - unfold onBlur. destruct (_ || _ || _); [exact Ho |].
    now apply one_shot_requestClose.
  - unfold onClick. destruct (_ || _ || _); [exact Ho |].
    now destruct (_ && _).
  - unfold onKeydown. destruct (_ || _ || _); [exact Ho |].
    now apply one_shot_requestClose.
  - now destruct (TriggerFacts.onMouseEnter_cases s) as [-> | [-> | ->]].
  - now destruct (TriggerFacts.onMouseLeave_cases s) as [-> | ->].
  - unfold onDocumentClick. destruct (_ || _); [exact Ho |].
    destruct (negb inside); [| exact Ho].
    now apply one_shot_requestClose.
  - exact Ho.
  - unfold one_shot_items, popupMouseLeave. cbv zeta.
    rewrite hoverController_leave_all. simpl.
    apply List.Forall_forall. intros it Hin. apply filter_In in Hin as [Hin _].
    unfold one_shot_items in Ho. rewrite List.Forall_forall in Ho.
    now apply Ho.
  - unfold fire. destruct (timers (window s) !! id) as [t|]; [| exact Ho].
    destruct (due t <=? now (window s)); [| exact Ho].
    destruct (callback t); simpl; [exact Ho |].
    now apply (one_shot_requestClose
                 (set_window (clearTimeout (Some id) (window s)) s)).
  - exact Ho.
  - exact Ho.
Qed.

Lemma run_wellformed es s : wellformed s -> wellformed (run es s).
Proof.
  revert s. induction es as [|e es IH]; intros s Hw; [exact Hw |].
  rewrite TriggerFacts.run_cons. apply IH.
  destruct Hw as [Hf Ho]. split.
  - now apply ids_fresh_handle.
  - now apply one_shot_handle.
Qed.

(** X6.  Every event keeps the timeouts well-formed: the id of every
    pending timeout and the id kept in [hoverTimeout] are older than the
    next id to be handed out, so a new timeout never takes the id of a
    pending one, and every listener waiting on the hover controller is
    one-shot.  This holds after any sequence of events. *)
Theorem events_keep_wellformed es s :
  wellformed s -> wellformed (run es s).
Proof. apply run_wellformed. Qed.

Lemma initial_wellformed : wellformed initial.
Proof.
  split; [split |].
  - intros id [t Ht]. simpl in Ht. rewrite lookup_empty in Ht. discriminate.
  - intros id Hid. discriminate Hid.
  - constructor.
Qed.

Lemma events_keep_wellformed_witness :
  wellformed initial /\
  wellformed
    (run [MouseEnter; Advance 150; TimerFire 1; PopupMouseEnter;
          DocumentPointerDown false; Keydown "Escape"; PopupMouseLeave]
       initial).
Proof.
  split; [exact initial_wellformed |].
  exact (events_keep_wellformed _ initial initial_wellformed).
Defined.


(** *** When the tooltip opens and when it closes *)

Lemma open_leave_all_hover items s :
  hasTrigger s "hover" = true ->
  open (fold_left (fun st it => run_leave_callback (item_callback it) st)
          items s)
  = open s.
Proof.
  intros Hh.
  apply (leave_all_inv
           (fun st => hasTrigger st "hover" = true /\ open st = open s));
    [| now split].
  intros st cb [Hst Ho]. rewrite run_leave_callback_eq, Hst. now split.
Qed.

Lemma open_leave_all_no_hover items s :
  hasTrigger s "hover" = false ->
  open (fold_left (fun st it => run_leave_callback (item_callback it) st)
          items s)
  = match items with [] => open s | _ :: _ => false end.
Proof.
  intros Hh. destruct items as [|it items]; [reflexivity |].
  simpl.
  apply (leave_all_inv
           (fun st => hasTrigger st "hover" = false /\ open st = false)).
  - intros st cb [Hst Ho]. rewrite run_leave_callback_eq, Hst. now split.
  - rewrite run_leave_callback_eq, Hh. now split.
Qed.

Lemma open_requestClose s :
  open (requestClose s) = open s && isHover (hoverController s).
Proof.
  unfold requestClose. destruct (isHover (hoverController s)); simpl.
  - now rewrite andb_true_r.
  - now rewrite andb_false_r.
Qed.

Lemma open_popupMouseLeave s :
  open (popupMouseLeave s)
  = if hasTrigger s "hover" then open s
    else match mouseLeaveItems (hoverController s) with
         | [] => open s
         | _ :: _ => false
         end.
Proof.
  unfold popupMouseLeave. cbv zeta.
  destruct (hasTrigger s "hover") eqn:Hh.
  - now rewrite open_leave_all_hover.
  - now rewrite open_leave_all_no_hover.
Qed.

Lemma open_fire id s :
  open (fire id s)
  = match timers (window s) !! id with
    | Some t =>
        if due t <=? now (window s)
        then match callback t with
             | CbSetOpen b => b
             | CbRequestClose => open s && isHover (hoverController s)
             end
        else open s
    | None => open s
    end.
Proof.
  unfold fire. destruct (timers (window s) !! id) as [t|]; [| reflexivity].
  destruct (due t <=? now (window s)); [| reflexivity].
  destruct (callback t); simpl; [reflexivity |].
  now rewrite open_requestClose.
Qed.

Lemma opens_iff e s :
  open s = false ->
  (open (handle e s) = true <->
   (e = Focus /\ disabled s = false /\ hasTrigger s "focus" = true) \/
   (e = PointerDownTarget 0 /\ disabled s = false /\
    hasTrigger s "click" = true) \/
   (e = MouseEnter /\ disabled s = false /\ hasTrigger s "hover" = true /\
    truthy (openDelay s) = false) \/
   (exists id t, e = TimerFire id /\ timers (window s) !! id = Some t /\
                 due t <= now (window s) /\ callback t = CbSetOpen true) \/
   e = SetOpenProp true).
Proof.
  intros Ho. split.
  - destruct e; simpl.
    + unfold onFocus. rewrite Ho.
      destruct (disabled s), (hasTrigger s "focus"); simpl; try congruence.
      intros _. left. auto.
    + unfold onBlur. rewrite Ho. simpl. rewrite orb_true_r. simpl. congruence.
    + unfold onClick. rewrite Ho.
      destruct (disabled s), (Z.eqb_spec button 0), (hasTrigger s "click");
        simpl; try congruence.
      intros _. right. left. subst. auto.
    + unfold onKeydown. rewrite Ho. simpl. rewrite orb_true_r. simpl.
      congruence.
    + unfold onMouseEnter. rewrite Ho.
      destruct (disabled s), (hasTrigger s "hover"); simpl; try congruence.
      destruct (truthy (openDelay s)) eqn:Ht; simpl; [congruence |].
      intros _. right. right. left. auto.
    + destruct (TriggerFacts.onMouseLeave_cases s) as [-> | ->]; simpl;
        congruence.
    + unfold onDocumentClick. rewrite Ho. simpl. rewrite orb_true_r. congruence.
    + congruence.
    + rewrite open_popupMouseLeave, Ho.
      destruct (hasTrigger s "hover"); [congruence |].
      destruct (mouseLeaveItems (hoverController s)); congruence.
    + rewrite open_fire, Ho.
      destruct (timers (window s) !! id) as [t|] eqn:E; [| congruence].
      destruct (Z.leb_spec (due t) (now (window s))); [| congruence].
      destruct (callback t) as [[] |] eqn:Ec; simpl; try congruence.
      intros _. right. right. right. left. exists id, t. auto.
    + congruence.
    + intros ->. right. right. right. right. reflexivity.
  - intros [(-> & Hd & Ht) | [(-> & Hd & Ht) | [(-> & Hd & Ht & Hz) |
      [(id & t & -> & Hl & Hdue & Hc) | ->]]]]; simpl.
    + unfold onFocus. now rewrite Hd, Ho, Ht.
    + unfold onClick. rewrite Hd, Ho, Ht. reflexivity.
    + unfold onMouseEnter. now rewrite Hd, Ho, Ht, Hz.
    + rewrite open_fire, Hl, Hc.
      destruct (Z.leb_spec (due t) (now (window s))); [reflexivity | lia].
    + reflexivity.
Qed.

(** X7.  A closed tooltip becomes open by an event in exactly these
    cases: a focus with the [focus] trigger, a primary pointer-down on the
    target with the [click] trigger, a mouseenter with the [hover] trigger
    and a falsy open delay (all three only when not disabled), a due
    timeout that is an open delay, and [open] set to true from outside. *)
Theorem closed_tooltip_opens_exactly_when e s :
  open s = false ->
  (open (handle e s) = true <->
   (e = Focus /\ disabled s = false /\ hasTrigger s "focus" = true) \/
   (e = PointerDownTarget 0 /\ disabled s = false /\
    hasTrigger s "click" = true) \/
   (e = MouseEnter /\ disabled s = false /\ hasTrigger s "hover" = true /\
    truthy (openDelay s) = false) \/
   (exists id t, e = TimerFire id /\ timers (window s) !! id = Some t /\
                 due t <= now (window s) /\ callback t = CbSetOpen true) \/
   e = SetOpenProp true).
Proof. apply opens_iff. Qed.

Lemma closed_tooltip_opens_exactly_when_witness :
  open initial = false /\ open (handle Focus initial) = true.
Proof.
  split; [reflexivity |].
  apply (closed_tooltip_opens_exactly_when Focus initial eq_refl).
  left. repeat split.
Defined.

(** X8.  An open tooltip becomes closed by an event in exactly these
    cases: a blur with the [focus] trigger, an [Escape] keydown or an
    outside pointer-down (all three only when not disabled and the pointer
    is not over the popup, the last two whatever the trigger); a primary
    pointer-down on the target with the [click] trigger and neither
    [hover] nor [focus]; a due timeout that closes, or that requests to
    close while the pointer is not over the popup; the pointer leaving the
    popup with a listener waiting and no [hover] trigger; [open] set to
    false from outside.  A mouseleave, a mouseenter or a focus never
    closes it by itself. *)
Theorem open_tooltip_closes_exactly_when e s :
  open s = true ->
  (open (handle e s) = false <->
   (e = Blur /\ disabled s = false /\ hasTrigger s "focus" = true /\
    isHover (hoverController s) = false) \/
   (e = Keydown "Escape" /\ disabled s = false /\
    isHover (hoverController s) = false) \/
   (e = DocumentPointerDown false /\ disabled s = false /\
    isHover (hoverController s) = false) \/
   (e = PointerDownTarget 0 /\ disabled s = false /\
    hasTrigger s "click" = true /\ hasTrigger s "hover" = false /\
    hasTrigger s "focus" = false) \/
   (exists id t, e = TimerFire id /\ timers (window s) !! id = Some t /\
                 due t <= now (window s) /\
                 (callback t = CbSetOpen false \/
                  (callback t = CbRequestClose /\
                   isHover (hoverController s) = false))) \/
   (e = PopupMouseLeave /\ mouseLeaveItems (hoverController s) <> [] /\
    hasTrigger s "hover" = false) \/
   e = SetOpenProp false).
Proof.
  intros Ho. split.
  - destruct e; simpl.
    + unfold onFocus. rewrite Ho. simpl. rewrite orb_true_r. simpl. congruence.
    + unfold onBlur. rewrite Ho.
      destruct (disabled s), (hasTrigger s "focus"); simpl; try congruence.
      rewrite open_requestClose, Ho. simpl. intros Hh. left. auto.
    + unfold onClick. rewrite Ho.
      destruct (disabled s), (Z.eqb_spec button 0), (hasTrigger s "click");
        simpl; try congruence.
      destruct (hasTrigger s "hover"), (hasTrigger s "focus"); simpl;
        try congruence.
      intros _. right. right. right. left. subst. auto.
    + unfold onKeydown. rewrite Ho.
      destruct (disabled s), (String.eqb_spec key "Escape"); simpl;
        try congruence.
      rewrite open_requestClose, Ho. simpl. intros Hh. subst.
      right. left. auto.
    + unfold onMouseEnter. rewrite Ho. simpl. rewrite orb_true_r. simpl.
      congruence.
    + destruct (TriggerFacts.onMouseLeave_cases s) as [-> | ->]; simpl;
        congruence.
    + unfold onDocumentClick. rewrite Ho.
      destruct (disabled s), inside; simpl; try congruence.
      rewrite open_requestClose, Ho. simpl. intros Hh.
      right. right. left. auto.
    + congruence.
    + rewrite open_popupMouseLeave, Ho.
      destruct (hasTrigger s "hover"); [congruence |].
      destruct (mouseLeaveItems (hoverController s)) eqn:Ei; [congruence |].
      intros _. do 5 right. left. repeat split. congruence.
    + rewrite open_fire, Ho.
      destruct (timers (window s) !! id) as [t|] eqn:E; [| congruence].
      destruct (Z.leb_spec (due t) (now (window s))); [| congruence].
      destruct (callback t) as [[] |] eqn:Ec; simpl; try congruence.
      * intros _. do 4 right. left. exists id, t. auto.
      * intros Hh. do 4 right. left. exists id, t. auto 6.
    + congruence.
    + intros ->. do 6 right. reflexivity.
  - intros [(-> & Hd & Ht & Hh) | [(-> & Hd & Hh) | [(-> & Hd & Hh) |
      [(-> & Hd & Hc & Hv & Hf) | [(id & t & -> & Hl & Hdue & Hcb) |
      [(-> & Hi & Hv) | ->]]]]]]; simpl.
    + unfold onBlur. rewrite Hd, Ho, Ht. simpl.
      now rewrite open_requestClose, Ho, Hh.
    + unfold onKeydown. rewrite Hd, Ho. simpl.
      now rewrite open_requestClose, Ho, Hh.
    + unfold onDocumentClick. rewrite Hd, Ho. simpl.
      now rewrite open_requestClose, Ho, Hh.
    + unfold onClick. rewrite Hd, Ho, Hc, Hv, Hf. reflexivity.
    + rewrite open_fire, Hl.
      destruct (Z.leb_spec (due t) (now (window s))); [| lia].
      destruct Hcb as [-> | [-> Hh]]; [reflexivity |]. now rewrite Ho, Hh.
    + rewrite open_popupMouseLeave, Hv.
      destruct (mouseLeaveItems (hoverController s)); [contradiction |].
      reflexivity.
    + reflexivity.
Qed.

Lemma open_tooltip_closes_exactly_when_witness :
  open (set_open true manual_closed) = true /\
  open (handle (Keydown "Escape") (set_open true manual_closed)) = false.
Proof.
  split; [reflexivity |].
  apply (open_tooltip_closes_exactly_when (Keydown "Escape")
           (set_open true manual_closed) eq_refl).
  right. left. repeat split.
Defined.


(** *** Events that are ignored *)

Lemma trigger_requestClose s : trigger (requestClose s) = trigger s.
Proof. now destruct (requestClose_cases s) as [-> | ->]. Qed.

Lemma trigger_handle e s : trigger (handle e s) = trigger s.
Proof.
  destruct e; simpl; try reflexivity.
  - unfold onFocus. now destruct (_ || _ || _).
  - unfold onBlur. destruct (_ || _ || _); [reflexivity |].
    apply trigger_requestClose.
  - unfold onClick. destruct (_ || _ || _); [reflexivity |].
    now destruct (_ && _).
  - unfold onKeydown. destruct (_ || _ || _); [reflexivity |].
    apply trigger_requestClose.
  - now destruct (TriggerFacts.onMouseEnter_cases s) as [-> | [-> | ->]].
  - now destruct (TriggerFacts.onMouseLeave_cases s) as [-> | ->].
  - unfold onDocumentClick. destruct (_ || _); [reflexivity |].
    destruct (negb inside); [| reflexivity]. apply trigger_requestClose.
  - unfold popupMouseLeave. cbv zeta.
    apply (leave_all_inv (fun st => trigger st = trigger s)); [| reflexivity].
    intros st cb Hst. rewrite run_leave_callback_eq.
    now destruct (hasTrigger st "hover").
  - unfold fire. destruct (timers (window s) !! id) as [t|]; [| reflexivity].
    destruct (due t <=? now (window s)); [| reflexivity].
    destruct (callback t); simpl; [reflexivity |].
    now rewrite trigger_requestClose.
Qed.

Lemma hasTrigger_handle e s t : hasTrigger (handle e s) t = hasTrigger s t.
Proof. unfold hasTrigger. now rewrite trigger_handle. Qed.

Lemma window_requestClose s : window (requestClose s) = window s.
Proof. now destruct (requestClose_cases s) as [-> | ->]. Qed.

Lemma clearTimeout_lookup slot w id t :
  timers (clearTimeout slot w) !! id = Some t -> timers w !! id = Some t.
Proof.
  destruct slot as [i|]; simpl; [| auto].
  destruct (decide (i = id)) as [-> | Hne].
  - now rewrite lookup_delete_eq.
  - now rewrite lookup_delete_ne.
Qed.

(** Without the [hover] trigger no event starts a timeout. *)
Lemma timers_shrink_without_hover e s id t :
  hasTrigger s "hover" = false ->
  timers (window (handle e s)) !! id = Some t ->
  timers (window s) !! id = Some t.
Proof.
  intros Hh. destruct e; simpl.
  - unfold onFocus. now destruct (_ || _ || _).
  - unfold onBlur. destruct (_ || _ || _); [auto |].
    now rewrite window_requestClose.
  - unfold onClick. destruct (_ || _ || _); [auto |]. now destruct (_ && _).
  - unfold onKeydown. destruct (_ || _ || _); [auto |].
    now rewrite window_requestClose.
  - unfold onMouseEnter. rewrite Hh. simpl. now rewrite orb_true_r.
  - unfold onMouseLeave. cbv zeta.
    change (hasTrigger (clear_hoverTimeout s) "hover")
      with (hasTrigger s "hover").
    rewrite Hh. simpl. rewrite orb_true_r. apply clearTimeout_lookup.
  - unfold onDocumentClick. destruct (_ || _); [auto |].
    destruct (negb inside); [| auto]. now rewrite window_requestClose.
  - auto.
  - unfold popupMouseLeave. cbv zeta.
    match goal with
    | |- context [fold_left ?f ?items ?s1] =>
        assert (Hw : window (fold_left f items s1) = window s)
    end.
    { apply (leave_all_inv
               (fun st => hasTrigger st "hover" = false /\
                          window st = window s)); [| now split].
      intros st cb [Hst Hw]. rewrite run_leave_callback_eq, Hst. now split. }
    now rewrite Hw.
  - unfold fire. destruct (timers (window s) !! id0) as [t0|] eqn:E; [| auto].
    destruct (due t0 <=? now (window s)); [| auto].
    destruct (callback t0); simpl.
    + apply (clearTimeout_lookup (Some id0)).
    + rewrite window_requestClose. apply (clearTimeout_lookup (Some id0)).
  - auto.
  - auto.
Qed.

(** X9.  A tooltip whose trigger names none of [hover], [focus] and
    [click] (such as [manual]), closed and with no open delay pending, is
    never opened by events: after any sequence of events that does not set
    [open] to true from outside it is still closed. *)
Theorem no_auto_trigger_never_opens es s :
  no_auto_trigger s ->
  open s = false ->
  no_open_delay_pending s ->
  Forall (fun e => sets_open e = false) es ->
  open (run es s) = false.
Proof.
  revert s. induction es as [|e es IH]; intros s Hna Ho Hnp Hes; [exact Ho |].
  inversion Hes as [| ? ? He Hes']; subst.
  rewrite TriggerFacts.run_cons.
  destruct Hna as (Hh & Hf & Hc). apply IH; try assumption.
  - repeat split; now rewrite hasTrigger_handle.
  - destruct (open (handle e s)) eqn:Ho'; [| reflexivity].
    apply (opens_iff e s Ho) in Ho'.
    destruct Ho' as [(_ & _ & Habs) | [(_ & _ & Habs) | [(_ & _ & Habs & _) |
      [(id & t & _ & Hl & _ & Hcb) | ->]]]]; try congruence.
    + exfalso. exact (Hnp id t Hl Hcb).
    + discriminate He.
  - intros id t Hl. apply (Hnp id t).
    now apply (timers_shrink_without_hover e s).
Qed.

Lemma no_auto_trigger_never_opens_witness :
  let es := [MouseEnter; Focus; PointerDownTarget 0; Advance 1000;
             TimerFire 1; PopupMouseEnter; PopupMouseLeave] in
  (no_auto_trigger manual_closed /\ open manual_closed = false) /\
  open (run es manual_closed) = false.
Proof.
  cbv zeta. split; [repeat split |].
  apply (no_auto_trigger_never_opens _ manual_closed).
  - repeat split.
  - reflexivity.
  - intros id t Hl. simpl in Hl. rewrite lookup_empty in Hl. discriminate.
  - repeat constructor.
Defined.

Lemma disabled_step e s id t :
  disabled s = true -> input_event e = true ->
  open (handle e s) = open s /\
  hoverController (handle e s) = hoverController s /\
  disabled (handle e s) = true /\
  (timers (window (handle e s)) !! id = Some t ->
   timers (window s) !! id = Some t).
Proof.
  intros Hd He. destruct e; try discriminate He; simpl.
  - unfold onFocus. rewrite Hd. simpl. auto.
  - unfold onBlur. rewrite Hd. simpl. auto.
  - unfold onClick. rewrite Hd. simpl. auto.
  - unfold onKeydown. rewrite Hd. simpl. auto.
  - unfold onMouseEnter. rewrite Hd. simpl. auto.
  - unfold onMouseLeave. cbv zeta.
    change (disabled (clear_hoverTimeout s)) with (disabled s).
    rewrite Hd. simpl. repeat split; try assumption.
    apply clearTimeout_lookup.
  - unfold onDocumentClick. rewrite Hd. simpl. auto.
Qed.

(** X10.  A disabled tooltip ignores the events of its target and of the
    document: after any sequence of focus, blur, pointer-down, keydown,
    mouseenter, mouseleave and document pointer-down events, [open] is
    what it was, no listener has been left on the hover controller and no
    timeout has been started (a mouseleave may only cancel the one kept
    in [hoverTimeout]). *)
Theorem disabled_ignores_input_events es s :
  disabled s = true ->
  Forall (fun e => input_event e = true) es ->
  open (run es s) = open s /\
  hoverController (run es s) = hoverController s /\
  (forall id t, timers (window (run es s)) !! id = Some t ->
                timers (window s) !! id = Some t).
Proof.
  revert s. induction es as [|e es IH]; intros s Hd Hes; [auto |].
  inversion Hes as [| ? ? He Hes']; subst.
  rewrite TriggerFacts.run_cons.
  destruct (disabled_step e s 0%nat
              {| callback := CbRequestClose; delay := DNull; due := 0 |}
              Hd He) as (Ho & Hc & Hd' & _).
  destruct (IH (handle e s) Hd' Hes') as (Ho2 & Hc2 & Ht2).
  split; [congruence |]. split; [congruence |].
  intros id t Hl. apply Ht2 in Hl.
  now apply (disabled_step e s id t Hd He).
Qed.


Lemma disabled_ignores_input_events_witness :
  let es := [MouseLeave; Keydown "Escape"; DocumentPointerDown false;
             PointerDownTarget 0; Blur; MouseEnter; Focus] in
  disabled disabled_open = true /\
  open (run es disabled_open) = true.
Proof.
  cbv zeta. split; [reflexivity |].
  refine (proj1 (disabled_ignores_input_events _ disabled_open eq_refl _)).
  repeat constructor.
Defined.

(** *** Delays that run to their end *)











(** *** The pointer leaving the popup *)





Lemma size_leave_all items :
  forall s,
    ids_fresh s -> hasTrigger s "hover" = true ->
    size (timers (window
            (fold_left (fun st it => run_leave_callback (item_callback it) st)
               items s)))
    = (size (timers (window s)) + length items)%nat.
Proof.
  induction items as [|it items IH]; intros s Hf Hh.
  - simpl. lia.
  - cbn [fold_left length]. rewrite IH.
    + rewrite run_leave_callback_eq, Hh.
      unfold start_hoverTimeout. simpl.
      rewrite map_size_insert_None; [lia |].
      destruct (timers (window s) !! next_timer (window s)) eqn:E;
        [| reflexivity].
      destruct Hf as [Hp _].
      assert (Hlt : (next_timer (window s) < next_timer (window s))%nat)
        by (apply Hp; rewrite E; eauto).
      lia.
    + now apply ids_fresh_run_leave_callback.
    + rewrite run_leave_callback_eq, Hh. exact Hh.
Qed.

(** X14.  With the [hover] trigger, the pointer leaving the popup starts
    one timeout for each listener waiting on the hover controller, each
    under a fresh id: the number of pending timeouts grows by the number
    of listeners, while [hoverTimeout] keeps only the id of the last
    one.  So two requests to close made while the pointer was over the
    popup leave two timeouts pending. *)
Theorem pointer_leaving_popup_starts_a_timeout_per_listener s :
  ids_fresh s ->
  hasTrigger s "hover" = true ->
  size (timers (window (handle PopupMouseLeave s)))
  = (size (timers (window s))
     + length (mouseLeaveItems (hoverController s)))%nat /\
  open (handle PopupMouseLeave s) = open s.
Proof.
  intros Hf Hh. split.
  - simpl. unfold popupMouseLeave. cbv zeta.
    rewrite size_leave_all; [reflexivity | | exact Hh].
    revert Hf. apply ids_fresh_same; reflexivity.
  - simpl. now rewrite open_popupMouseLeave, Hh.
Qed.


Lemma pointer_leaving_popup_starts_a_timeout_per_listener_witness :
  (ids_fresh two_close_requests /\
   hasTrigger two_close_requests "hover" = true) /\
  length (mouseLeaveItems (hoverController two_close_requests)) = 2%nat /\
  size (timers (window (handle PopupMouseLeave two_close_requests))) = 2%nat.
Proof.
  assert (Hf : ids_fresh two_close_requests)
    by apply (run_wellformed _ initial initial_wellformed).
  split; [split; [exact Hf | reflexivity] |].
  split; [reflexivity |].
  rewrite (proj1 (pointer_leaving_popup_starts_a_timeout_per_listener
                    two_close_requests Hf eq_refl)).
  reflexivity.
Defined.

(** *** The trigger tokens *)

(** X15.  [hasTrigger] reads the trigger as a list of tokens separated by
    single spaces: for a trigger written as tokens joined by spaces, it
    holds exactly for the tokens of the list, whatever their order and
    however often they are repeated. *)
Theorem hasTrigger_reads_tokens s tokens t :
  trigger s = join " " tokens ->
  tokens <> [] ->
  Forall (fun p => free_of " " p = true) tokens ->
  (hasTrigger s t = true <-> In t tokens).
Proof.
  intros Htr Hne Hfree. unfold hasTrigger.
  rewrite Htr, (JsMore.split_join " " tokens Hne Hfree).
  apply JsFacts.includes_true.
Qed.

Lemma hasTrigger_reads_tokens_witness :
  (trigger initial = join " " ["hover"; "focus"] /\
   ["hover"; "focus"] <> [] /\
   Forall (fun p => free_of " " p = true) ["hover"; "focus"]) /\
  (hasTrigger initial "click" = true <-> In "click" ["hover"; "focus"]).
Proof.
  split; [split; [reflexivity | split; [discriminate | repeat constructor]] |].
  apply (hasTrigger_reads_tokens initial ["hover"; "focus"] "click");
    [reflexivity | discriminate | repeat constructor].
Defined.

End TriggerMore.

Module OpenChangeMore.
Import OpenChange OpenChangeRules MoreRules.

(** What the watcher leaves at each position of the document. *)
Lemma onOpenChange_lookup proceeds i doc j e' :
  fst (onOpenChange proceeds i doc) !! j = Some e' ->
  exists e,
    doc !! j = Some e /\
    variant e' = variant e /\ hasUpdated e' = hasUpdated e /\
    (j <> i -> popupHidden e' = popupHidden e) /\
    (j = i -> open e' = open e) /\
    (open e' = true -> open e = true).
Proof.
  destruct (doc !! i) as [me|] eqn:Hi.
  - destruct (decide (j = i)) as [-> | Hne].
    + unfold onOpenChange. rewrite Hi.
      assert (Hdone : forall b, Some (set_popupHidden b me) = Some e' \/
                                Some me = Some e' ->
                exists e, Some me = Some e /\
                  variant e' = variant e /\ hasUpdated e' = hasUpdated e /\
                  (i <> i -> popupHidden e' = popupHidden e) /\
                  (i = i -> open e' = open e) /\
                  (open e' = true -> open e = true)).
      { intros b [[= <-] | [= <-]]; exists me; repeat split; auto;
          contradiction. }
      destruct (open me).
      * destruct (hasUpdated me && negb (proceeds i "open")); simpl.
        -- rewrite OpenChangeFacts.closeOthers_self, Hi.
           intros He. apply (Hdone true). now right.
        -- rewrite list_lookup_alter_eq, OpenChangeFacts.closeOthers_self, Hi.
           simpl. intros He. apply (Hdone false). now left.
      * destruct (hasUpdated me); simpl.
        -- destruct (negb (proceeds i "close")); simpl.
           ++ rewrite Hi. intros He. apply (Hdone true). now right.
           ++ rewrite list_lookup_alter_eq, Hi. simpl.
              intros He. apply (Hdone true). now left.
        -- rewrite Hi. intros He. apply (Hdone true). now right.
    + unfold onOpenChange. rewrite Hi.
      assert (Hclose : closeOthers i (variant me) doc !! j = Some e' ->
                exists e, doc !! j = Some e /\
                  variant e' = variant e /\ hasUpdated e' = hasUpdated e /\
                  (j <> i -> popupHidden e' = popupHidden e) /\
                  (j = i -> open e' = open e) /\
                  (open e' = true -> open e = true)).
      { rewrite OpenChangeFacts.closeOthers_lookup.
        destruct (in_dec _ _ _) as [_ | _].
        - destruct (doc !! j) as [e|]; simpl; [| discriminate].
          intros [= <-]. exists e. repeat split; try contradiction.
          simpl. discriminate.
        - intros He. exists e'. repeat split; auto. }
      destruct (open me).
      * destruct (hasUpdated me && negb (proceeds i "open")); simpl;
          [exact Hclose |].
        rewrite list_lookup_alter_ne by congruence. exact Hclose.
      * destruct (hasUpdated me); simpl.
        -- destruct (negb (proceeds i "close")); simpl.
           ++ intros He. exists e'. repeat split; auto; contradiction.
           ++ rewrite list_lookup_alter_ne by congruence.
              intros He. exists e'. repeat split; auto; contradiction.
        -- intros He. exists e'. repeat split; auto; contradiction.
  - unfold onOpenChange. rewrite Hi. simpl.
    intros He. exists e'. repeat split; auto.
Qed.

Lemma closeOthers_length i v doc : length (closeOthers i v doc) = length doc.
Proof.
  unfold closeOthers. generalize (others i v doc). intros js. revert doc.
  induction js as [|j js IH]; intros doc; [reflexivity |].
  cbn [fold_left]. rewrite IH. apply length_alter.
Qed.

(** X16.  The watcher keeps the document in shape: the same number of
    tooltips, each with its variant and its [hasUpdated]; it never sets
    an [open] to true, never changes the [open] of the tooltip it runs on,
    and never shows or hides the popup of another tooltip. *)
Theorem watcher_keeps_document_shape proceeds i doc :
  length (fst (onOpenChange proceeds i doc)) = length doc /\
  (forall j e',
     fst (onOpenChange proceeds i doc) !! j = Some e' ->
     exists e,
       doc !! j = Some e /\
       variant e' = variant e /\ hasUpdated e' = hasUpdated e /\
       (j <> i -> popupHidden e' = popupHidden e) /\
       (j = i -> open e' = open e) /\
       (open e' = true -> open e = true)).
Proof.
  split; [| apply onOpenChange_lookup].
  unfold onOpenChange. destruct (doc !! i) as [me|]; [| reflexivity].
  destruct (open me).
  - destruct (hasUpdated me && negb (proceeds i "open")); simpl;
      rewrite ?length_alter; apply closeOthers_length.
  - destruct (hasUpdated me); [| reflexivity].
    destruct (negb (proceeds i "close")); simpl;
      rewrite ?length_alter; reflexivity.
Qed.

(** X17.  On the first render ([hasUpdated] false) the watcher emits no
    event and does not consult the listeners.  A closed tooltip is left
    alone.  An open one (its variant being one the selector reads as it
    is) closes the others of its variant, shows its popup and calls
    [updatePositioner]; when it has a child to point at, the entrance
    animation follows with duration 0; when it has none, the call throws
    and the watcher ends there, the popup shown and no animation run. *)
Theorem first_render_emits_no_event proceeds i doc me :
  doc !! i = Some me ->
  hasUpdated me = false ->
  Forall (fun e => is_Emit e = false) (snd (onOpenChange proceeds i doc)) /\
  (forall answers, onOpenChange answers i doc = onOpenChange proceeds i doc) /\
  (open me = false -> onOpenChange proceeds i doc = (doc, [])) /\
  (open me = true -> css_literal (variant me) = true ->
     let closes :=
       map (fun j => SetOpenProp j false) (others i (variant me) doc) in
     fst (onOpenChange proceeds i doc) !! i
     = Some (set_popupHidden false me) /\
     (hasTarget me = true ->
        snd (onOpenChange proceeds i doc)
        = (closes ++ [StopAnimations i; SetHidden i false; UpdatePositioner i;
                      AnimateTo i 0 1 false])%list) /\
     (hasTarget me = false ->
        snd (onOpenChange proceeds i doc)
        = (closes ++ [StopAnimations i; SetHidden i false; UpdatePositioner i;
                      Throw i])%list)).
Proof.
  intros Hi Hu. unfold onOpenChange. rewrite Hi, Hu. simpl.
  split; [| split; [reflexivity | split]].
  - destruct (open me); simpl; [| constructor].
    apply Forall_app. split.
    + apply List.Forall_forall. intros x Hx. apply in_map_iff in Hx.
      destruct Hx as (j & <- & _). reflexivity.
    + destruct (hasTarget me); repeat constructor.
  - now intros ->.
  - intros -> _. simpl. split; [| split].
    + now rewrite list_lookup_alter_eq, OpenChangeFacts.closeOthers_self, Hi.
    + now intros ->.
    + now intros ->.
Qed.

Lemma first_render_emits_no_event_witness :
  (open_without_target !! 1%nat
   = Some {| variant := "plain"; open := true; hasUpdated := false;
             popupHidden := true; hasTarget := false |}) /\
  snd (onOpenChange prevent_all 1 open_without_target)
  = [SetOpenProp 0 false; StopAnimations 1; SetHidden 1 false;
     UpdatePositioner 1; Throw 1].
Proof.
  split; [reflexivity |].
  destruct (first_render_emits_no_event prevent_all 1 open_without_target
              _ eq_refl eq_refl) as (_ & _ & _ & Hopen).
  exact (proj2 (proj2 (Hopen eq_refl eq_refl)) eq_refl).
Defined.

Example open_at_first_render_runs :
  onOpenChange prevent_all 1 open_at_first_render
  = ([set_open false (shown "plain");
      {| variant := "plain"; open := true; hasUpdated := false;
         popupHidden := false; hasTarget := true |}],
     [SetOpenProp 0 false; StopAnimations 1; SetHidden 1 false;
      UpdatePositioner 1; AnimateTo 1 0 1 false]).
Proof. reflexivity. Qed.

(** X18.  Opening keeps the tooltips exclusive: in a document where at
    most one tooltip of each variant is open, after [open] of a tooltip
    (its variant being one the selector reads as it is) is set to true
    and its watcher has run, at most one tooltip of each variant is open
    again, whatever the listeners answer. *)
Theorem opening_keeps_tooltips_exclusive proceeds i doc :
  exclusive doc ->
  (forall e, doc !! i = Some e -> css_literal (variant e) = true) ->
  exclusive (fst (onOpenChange proceeds i (open_tooltip i doc))).
Proof.
  intros Hex _. unfold open_tooltip.
  destruct (doc !! i) as [ei|] eqn:Hi.
  - set (me := set_open true ei).
    set (doc0 := alter (set_open true) i doc).
    assert (Hme : doc0 !! i = Some me)
      by (unfold doc0; now rewrite list_lookup_alter_eq, Hi).
    assert (Hother : forall j e', j <> i ->
              fst (onOpenChange proceeds i doc0) !! j = Some e' ->
              open e' = true ->
              doc !! j = Some e' /\ variant e' <> variant me).
    { intros j e' Hne He' Hopen.
      rewrite (OpenChangeFacts.onOpenChange_open_lookup _ _ _ me _ Hme
                 eq_refl Hne) in He'.
      assert (Hd0 : doc0 !! j = doc !! j)
        by (unfold doc0; apply list_lookup_alter_ne; congruence).
      rewrite OpenChangeFacts.closeOthers_lookup, Hd0 in He'.
      destruct (in_dec _ _ _) as [Hin | Hnin].
      - destruct (doc !! j); simpl in He'; [| discriminate].
        injection He' as <-. discriminate Hopen.
      - split; [exact He' |]. intros Hv. apply Hnin.
        apply OpenChangeFacts.others_spec. split; [exact Hne |].
        exists e'. split; [| exact Hv]. now rewrite Hd0. }
    assert (Hself : forall e', fst (onOpenChange proceeds i doc0) !! i
                               = Some e' -> variant e' = variant me).
    { intros e' He'.
      destruct (OpenChangeFacts.onOpenChange_keeps_open proceeds i doc0 me
                  Hme) as (me' & Hme' & _ & Hv).
      congruence. }
    intros j k ej ek Hj Hk Hoj Hok Hv.
    destruct (decide (j = i)) as [-> | Hji];
      destruct (decide (k = i)) as [-> | Hki].
    + reflexivity.
    + exfalso. destruct (Hother k ek Hki Hk Hok) as [_ Hvk].
      apply Hvk. rewrite <- Hv. now apply Hself.
    + exfalso. destruct (Hother j ej Hji Hj Hoj) as [_ Hvj].
      apply Hvj. rewrite Hv. now apply Hself.
    + destruct (Hother j ej Hji Hj Hoj) as [Hj' _].
      destruct (Hother k ek Hki Hk Hok) as [Hk' _].
      exact (Hex j k ej ek Hj' Hk' Hoj Hok Hv).
  - assert (Hsame : alter (set_open true) i doc = doc).
    { apply list_eq. intros j.
      destruct (decide (i = j)) as [<- | Hne].
      - now rewrite list_lookup_alter_eq, Hi.
      - now rewrite list_lookup_alter_ne. }
    rewrite Hsame. unfold onOpenChange. rewrite Hi. exact Hex.
Qed.

Lemma one_open_per_variant_exclusive : exclusive one_open_per_variant.
Proof.
  intros j k ej ek Hj Hk Hoj Hok Hv.
  destruct j as [|[|[|j]]]; destruct k as [|[|[|k]]];
    simpl in Hj, Hk; try discriminate;
    try injection Hj as <-; try injection Hk as <-;
    try reflexivity; discriminate.
Qed.

Lemma opening_keeps_tooltips_exclusive_witness :
  exclusive one_open_per_variant /\
  (forall e, one_open_per_variant !! 1%nat = Some e ->
             css_literal (variant e) = true) /\
  exclusive
    (fst (onOpenChange prevent_all 1 (open_tooltip 1 one_open_per_variant))).
Proof.
  assert (Hlit : forall e, one_open_per_variant !! 1%nat = Some e ->
                           css_literal (variant e) = true)
    by (intros e [= <-]; reflexivity).
  split; [exact one_open_per_variant_exclusive | split; [exact Hlit |]].
  exact (opening_keeps_tooltips_exclusive prevent_all 1 one_open_per_variant
           one_open_per_variant_exclusive Hlit).
Defined.

End OpenChangeMore.

Module DomFacts.
Import Dom MoreRules.

Lemma find_first {A} (f : A -> bool) l x :
  List.find f l = Some x <->
  exists before after,
    l = (before ++ x :: after)%list /\
    Forall (fun y => f y = false) before /\ f x = true.
Proof.
  induction l as [|a l IH]; simpl.
  - split; [discriminate |].
    intros (before & after & Hl & _). now destruct before.
  - destruct (f a) eqn:Ha.
    + split.
      * intros [= <-]. exists [], l. repeat split; [constructor | exact Ha].
      * intros (before & after & Hl & Hb & Hx).
        destruct before as [|b before]; simpl in Hl.
        -- now injection Hl as -> _.
        -- injection Hl as -> _. inversion Hb; congruence.
    + rewrite IH. split.
      * intros (before & after & -> & Hb & Hx).
        exists (a :: before), after. repeat split; [now constructor | exact Hx].
      * intros (before & after & Hl & Hb & Hx).
        destruct before as [|b before]; simpl in Hl.
        -- injection Hl as -> _. congruence.
        -- injection Hl as -> ->. exists before, after.
           repeat split; [now inversion Hb | exact Hx].
Qed.

Lemma find_nothing {A} (f : A -> bool) l :
  List.find f l = None <-> Forall (fun y => f y = false) l.
Proof.
  induction l as [|a l IH]; simpl.
  - split; [constructor | reflexivity].
  - destruct (f a) eqn:Ha.
    + split; [discriminate |]. intros Hall. inversion Hall; congruence.
    + rewrite IH. split; [now constructor | now inversion 1].
Qed.

(** X19.  The target of a tooltip is its first child that is neither a
    style element (whatever the case of the tag name) nor slotted as
    [content]: every child before it is one or the other; and there is no
    target exactly when every child is one or the other. *)
Theorem target_is_first_eligible_child children :
  (forall el,
     target children = Some el <->
     exists before after,
       children = (before ++ el :: after)%list /\
       Forall (fun c => toLowerCase (tagName c) = "style" \/
                        slot c = Some "content") before /\
       toLowerCase (tagName el) <> "style" /\ slot el <> Some "content") /\
  (target children = None <->
   Forall (fun c => toLowerCase (tagName c) = "style" \/
                    slot c = Some "content") children).
Proof.
  assert (Hno : forall c, eligible c = false <->
            toLowerCase (tagName c) = "style" \/ slot c = Some "content").
  { intros c. unfold eligible.
    rewrite andb_false_iff, !negb_false_iff, String.eqb_eq,
      JsFacts.is_tok_true. tauto. }
  assert (Hyes : forall c, eligible c = true <->
            toLowerCase (tagName c) <> "style" /\ slot c <> Some "content").
  { intros c. unfold eligible.
    rewrite andb_true_iff, !negb_true_iff, String.eqb_neq,
      JsFacts.is_tok_false. tauto. }
  assert (Hall : forall l, Forall (fun c => eligible c = false) l <->
            Forall (fun c => toLowerCase (tagName c) = "style" \/
                             slot c = Some "content") l).
  { intros l. rewrite !List.Forall_forall. split; intros Hl c Hc;
      apply Hno, Hl, Hc. }
  split.
  - intros el. unfold target. rewrite find_first. split.
    + intros (before & after & Hl & Hb & Hx). exists before, after.
      split; [exact Hl |]. split; [now apply Hall | now apply Hyes].
    + intros (before & after & Hl & Hb & Hx). exists before, after.
      split; [exact Hl |]. split; [now apply Hall | now apply Hyes].
  - unfold target. rewrite find_nothing. apply Hall.
Qed.

Example target_of_some_children :
  target some_children = Some {| tagName := "MDUI-BUTTON"; slot := None |} /\
  target [ {| tagName := "Style"; slot := None |} ] = None /\
  target [] = None.
Proof. repeat split. Qed.

End DomFacts.

Module SwitchMore.
Import Switch SwitchForm SwitchRules.

Section AnyValidity.
Variable nativeValid : Input -> bool.

(** X20.  A reset skips the validation once: when the form of the switch
    is resetting it, the watcher of [checked] clears [invalid] whatever
    the validity, and takes the switch (and only the switch, and only for
    that form) out of the controls being reset; the next change of
    [checked] is validated. *)
Theorem reset_skips_validation_once self f formResets controls s :
  formResets !! f = Some controls ->
  self ∈ controls ->
  let r := onCheckedChange nativeValid self (Some f) formResets s in
  invalid (snd r) = false /\
  fst r !! f = Some (controls ∖ {[self]}) /\
  (forall other, other <> self ->
     (other ∈ controls ∖ {[self]} <-> other ∈ controls)) /\
  (forall g, g <> f -> fst r !! g = formResets !! g) /\
  (forall s', onCheckedChange nativeValid self (Some f) (fst r) s'
              = (fst r, validate nativeValid (rendered s'))).
Proof.
  intros Hf Hin r. subst r. unfold onCheckedChange. cbv zeta.
  rewrite Hf, (bool_decide_eq_true_2 _ Hin). simpl.
  split; [reflexivity |]. split; [apply lookup_insert_eq |].
  split; [intros other Hne;
          rewrite elem_of_difference, elem_of_singleton; tauto |].
  split; [intros g Hne; now apply lookup_insert_ne |].
  intros s'. rewrite lookup_insert_eq.
  rewrite bool_decide_eq_false_2; [reflexivity |].
  rewrite elem_of_difference, elem_of_singleton. tauto.
Qed.

(** X21.  [reportValidity] is stable: called again on the component it
    has left, it gives the same answer and leaves the same component;
    after it, [invalid] is the negation of what [checkValidity] answers.
    It calls [blur] then [focus] exactly when the field is invalid and a
    listener prevented the default of the [invalid] event. *)
Theorem reportValidity_is_stable (proceeds : string -> bool) s :
  let r := reportValidity nativeValid proceeds s in
  reportValidity nativeValid proceeds (snd r) = r /\
  fst (fst (checkValidity nativeValid (snd r))) = negb (invalid (snd r)) /\
  snd (fst r)
  = (if nativeValid (inputRef s) then []
     else if proceeds "invalid" then [invalid_event]
     else [invalid_event; CallBlur; CallFocus]).
Proof.
  cbv zeta. unfold reportValidity, checkValidity. simpl.
  destruct (nativeValid (inputRef s)) eqn:Hv; simpl; rewrite ?Hv; simpl.
  - repeat split.
  - destruct (proceeds "invalid"); repeat split.
Qed.

End AnyValidity.

Lemma reset_skips_validation_once_witness :
  let resets : gmap nat (gset nat) := {[ 7%nat := {[ 1%nat; 2%nat ]} ]} in
  let r := onCheckedChange html_checkbox_valid 1 (Some 7%nat) resets
             required_unchecked in
  (resets !! 7%nat = Some ({[ 1%nat; 2%nat ]} : gset nat) /\
   1%nat ∈ ({[ 1%nat; 2%nat ]} : gset nat)) /\
  invalid (snd r) = false /\
  invalid (snd (onCheckedChange html_checkbox_valid 1 (Some 7%nat) (fst r)
                  required_unchecked)) = true.
Proof.
  cbv zeta.
  assert (Hl : ({[ 7%nat := {[ 1%nat; 2%nat ]} ]} : gmap nat (gset nat))
               !! 7%nat = Some {[ 1%nat; 2%nat ]})
    by apply lookup_singleton_eq.
  assert (Hin : 1%nat ∈ ({[ 1%nat; 2%nat ]} : gset nat)) by set_solver.
  split; [split; assumption |].
  destruct (reset_skips_validation_once html_checkbox_valid 1%nat 7%nat
              _ _ required_unchecked Hl Hin) as (Hinv & _ & _ & _ & Hnext).
  split; [exact Hinv |].
  rewrite (Hnext required_unchecked). reflexivity.
Defined.

(** X22.  With the constraint validation of a checkbox by the browser:
    a custom validity message that is not empty marks an enabled switch
    invalid, and [checkValidity] then answers false; the empty message
    takes the custom error away again, whatever message was set before,
    and leaves the switch invalid exactly when its input is enabled,
    required and unchecked. *)
Theorem custom_message_invalidates m s :
  m <> "" ->
  input_disabled (inputRef s) = false ->
  let s1 := setCustomValidity html_checkbox_valid m s in
  invalid s1 = true /\
  fst (fst (checkValidity html_checkbox_valid s1)) = false /\
  setCustomValidity html_checkbox_valid "" s1
  = setCustomValidity html_checkbox_valid "" s /\
  invalid (setCustomValidity html_checkbox_valid "" s1)
  = input_required (inputRef s) && negb (input_checked (inputRef s)).
Proof.
  intros Hm Hd. cbv zeta.
  unfold setCustomValidity, validate, checkValidity, html_checkbox_valid.
  simpl. rewrite Hd. simpl.
  destruct (String.eqb_spec m ""); [contradiction |]. simpl.
  rewrite orb_true_r. simpl.
  repeat split. now rewrite orb_false_r, negb_involutive.
Qed.

Lemma custom_message_invalidates_witness :
  ("no" <> "" /\ input_disabled (inputRef required_unchecked) = false) /\
  invalid (setCustomValidity html_checkbox_valid "no" required_unchecked)
  = true.
Proof.
  split; [split; [discriminate | reflexivity] |].
  refine (proj1 (custom_message_invalidates "no" required_unchecked _ _));
    [discriminate | reflexivity].
Defined.

(** X23.  With the constraint validation of a checkbox by the browser,
    the watcher of [disabled] and [required] marks the switch invalid
    exactly when it is enabled and either required and unchecked or
    carrying a custom validity message: a disabled switch is never marked
    invalid. *)
Theorem onDisabledChange_marks_invalid_exactly_when s :
  invalid (onDisabledChange html_checkbox_valid s) = true <->
  disabled s = false /\
  ((required s = true /\ checked s = false) \/
   input_customValidity (inputRef s) <> "").
Proof.
  unfold onDisabledChange, validate, rendered, html_checkbox_valid. simpl.
  destruct (disabled s), (required s), (checked s),
    (String.eqb_spec (input_customValidity (inputRef s)) ""); simpl;
    split; intros H; try discriminate; try reflexivity;
    try (repeat split; auto; fail);
    try (destruct H as [H1 [[H2 H3] | H2]]; congruence).
  all: try (split; [reflexivity |]; auto).
Qed.

End SwitchMore.

Module LifecycleFacts.
Import Lifecycle.

Lemma attach_detach_clean moves l :
  document_pointerdown l = false -> scroll l = ∅ ->
  document_pointerdown (attach_detach moves l) = false /\
  scroll (attach_detach moves l) = ∅.
Proof.
  revert l. induction moves as [|a moves IH]; intros l Hd Hs; [now split |].
  unfold attach_detach. cbn [fold_left]. apply IH; [reflexivity |].
  simpl. rewrite Hs, (left_id_L ∅ (∪)). apply difference_diag_L.
Qed.

(** X24.  Detaching takes away what attaching has added: however often a
    tooltip that had no listener is attached and detached, and whatever
    its scrollable ancestors were each time, it is left with no
    [pointerdown] listener on the document and no [scroll] listener; and
    attached once more, it listens to the document and to exactly the
    ancestors of that attachment. *)
Theorem detaching_removes_the_listeners moves ancestors l :
  document_pointerdown l = false ->
  scroll l = ∅ ->
  document_pointerdown (attach_detach moves l) = false /\
  scroll (attach_detach moves l) = ∅ /\
  document_pointerdown (connectedCallback ancestors (attach_detach moves l))
  = true /\
  (forall a, a ∈ scroll (connectedCallback ancestors (attach_detach moves l))
             <-> In a ancestors).
Proof.
  intros Hd Hs.
  destruct (attach_detach_clean moves l Hd Hs) as [Hd' Hs'].
  split; [exact Hd' |]. split; [exact Hs' |]. split; [reflexivity |].
  intros a. simpl. rewrite Hs', elem_of_union, elem_of_list_to_set.
  rewrite list_elem_of_In. split; [intros [Habs | Hin] | auto].
  - now apply not_elem_of_empty in Habs.
  - exact Hin.
Qed.

Lemma detaching_removes_the_listeners_witness :
  (document_pointerdown detached = false /\ scroll detached = ∅) /\
  scroll (attach_detach [[1; 2]; [2; 3]; []]%nat detached) = ∅.
Proof.
  split; [split; reflexivity |].
  exact (proj1 (proj2 (detaching_removes_the_listeners
                         [[1; 2]; [2; 3]; []]%nat [] detached
                         eq_refl eq_refl))).
Defined.

End LifecycleFacts.
